(** * Random walking path suggester: a shallow embedding of [random-walker.py]

    The development follows the source file top-down:
    - [Py]: the Python run-time behaviour the program relies on (exceptions,
      floor division, extended slices, [math] functions on idealised reals);
    - [Reducer]: the way-point reduction at the head of [save_path_for_gmaps];
    - [Walker]: [get_random_point_in_circle] and [generate_walk_in_circle],
      written in a small state-and-exception monad whose state carries the
      random generator and the trace of observable calls.

    Python floats are idealised as real numbers throughout. *)

From Stdlib Require Import Reals Lra Lia ZArith.
From stdpp Require Import base option list gmap strings.

(** ** Python run-time model *)

Module Py.

(** The exceptions the program can meet. *)
Inductive exn : Set :=
| KeyError
| ValueError
| IndexError
| ZeroDivisionError
| NetworkXNoPath.

(** A computation either returns a value or raises. *)
Inductive result (A : Type) : Type :=
| Ok (a : A)
| Raise (e : exn).
Arguments Ok {A} a.
Arguments Raise {A} e.

#[global] Instance result_ret : MRet result := fun _ a => Ok a.
#[global] Instance result_bind : MBind result := fun _ _ f m =>
  match m with
  | Ok a => f a
  | Raise e => Raise e
  end.

(** [a // b] on integers: floor division, raising on a zero divisor. *)
Definition floordiv (a b : Z) : result Z :=
  if decide (b = 0)%Z then Raise ZeroDivisionError else Ok (a / b)%Z.

(** The elements of [l] at positions [skip], [skip + gap + 1],
    [skip + 2 * (gap + 1)], ... *)
Fixpoint take_every {A : Type} (gap skip : nat) (l : list A) : list A :=
  match l with
  | [] => []
  | x :: t =>
      match skip with
      | O => x :: take_every gap gap t
      | S s => take_every gap s t
      end
  end.

(** [l[::step]]: a zero step raises, a positive step walks forward from the
    first element, a negative one walks backward from the last element. *)
Definition slice_step {A : Type} (l : list A) (step : Z) : result (list A) :=
  if decide (step = 0)%Z then Raise ValueError
  else if decide (0 < step)%Z then Ok (take_every (Z.to_nat step - 1) 0 l)
  else Ok (take_every (Z.to_nat (- step) - 1) 0 (rev l)).

(** [l[-1]]. *)
Definition last_item {A : Type} (l : list A) : result A :=
  match last l with
  | Some x => Ok x
  | None => Raise IndexError
  end.

(** [l[:-1]] and [l[1:]]. *)
Definition but_last {A : Type} (l : list A) : list A := removelast l.
Definition but_first {A : Type} (l : list A) : list A := drop 1 l.

(** [d[k]] on a dictionary. *)
Definition getitem `{Countable K} {V : Type} (d : gmap K V) (k : K) : result V :=
  match d !! k with
  | Some v => Ok v
  | None => Raise KeyError
  end.

End Py.
Import Py.

(** ** Way-point reduction ([save_path_for_gmaps], lines 133-140) *)

Module Reducer.

Definition max_waypoints_for_url : Z := 23.

(** The reduction with the bound as a parameter. *)
Definition reduce_waypoints (max_count : Z) (path_nodes : list Z)
  : result (list Z) :=
  if decide (max_count < Z.of_nat (length path_nodes))%Z then
    step ← floordiv (Z.of_nat (length path_nodes)) (max_count - 1);
    url_nodes ← slice_step path_nodes step;
    a ← last_item url_nodes;
    b ← last_item path_nodes;
    if decide (a ≠ b) then Ok (url_nodes ++ [b]) else Ok url_nodes
  else Ok path_nodes.

(** [url_nodes] as the program computes it. *)
Definition url_nodes (path_nodes : list Z) : result (list Z) :=
  reduce_waypoints max_waypoints_for_url path_nodes.

End Reducer.

(** ** The [math] module on idealised reals *)

Module PyMath.
Local Open Scope R_scope.

Definition radians (x : R) : R := x * (PI / 180).
Definition degrees (x : R) : R := x * (180 / PI).

(** [math.sqrt] raises on a negative argument. *)
Definition sqrt (x : R) : result R :=
  if Rlt_dec x 0 then Raise ValueError else Ok (R_sqrt.sqrt x).

(** [math.asin] raises outside [[-1, 1]]. *)
Definition asin (x : R) : result R :=
  if Rlt_dec x (-1) then Raise ValueError
  else if Rlt_dec 1 x then Raise ValueError
  else Ok (Ratan.asin x).

(** [math.atan2 y x]: the angle of the point [(x, y)], in [(-PI, PI]]. *)
Definition atan2 (y x : R) : R :=
  if Rlt_dec 0 x then atan (y / x)
  else if Rlt_dec x 0 then
    (if Rle_dec 0 y then atan (y / x) + PI else atan (y / x) - PI)
  else if Rlt_dec 0 y then PI / 2
  else if Rlt_dec y 0 then - (PI / 2)
  else 0.

End PyMath.

(** ** The road network *)

(** An [osmnx] multigraph as the program reads it: [graph.nodes[n]] and
    [graph.edges[u, v, key]] are attribute dictionaries. *)
Record graph : Type := Graph {
  nodes : gmap Z (gmap string R);
  edges : gmap (Z * Z * Z) (gmap string R)
}.

(** ** Sampler and loop builder (lines 85-129) *)

Module Walker.
Local Open Scope R_scope.

(** What a run does that an observer can see, in order. *)
Inductive event : Type :=
| EvPrintAttempt (i max_attempts : Z)
| EvRandom
| EvNearestNodes (X Y : R)
| EvShortestPath (source target : Z)
| EvPrintSuccess (path_length_m : R)
| EvPrintGiveUp.

Definition is_random (e : event) : bool :=
  match e with EvRandom => true | _ => false end.
Definition is_shortest_path (e : event) : bool :=
  match e with EvShortestPath _ _ => true | _ => false end.
Definition is_nearest_nodes (e : event) : bool :=
  match e with EvNearestNodes _ _ => true | _ => false end.
Definition is_attempt (e : event) : bool :=
  match e with EvPrintAttempt _ _ => true | _ => false end.

(** How many events of a trace satisfy [p]. *)
Definition count (p : event -> bool) (evs : list event) : nat :=
  length (List.filter p evs).

Section Defs.

(** The generator behind [random.random()], which yields a number of
    [[0, 1)] and a new generator state. *)
Variable rng : Type.
Variable random : rng -> R * rng.

(** [ox.nearest_nodes(graph, X=.., Y=..)]. *)
Variable nearest_nodes : graph -> R -> R -> Z.

(** [nx.shortest_path(graph, source, target, weight='length')];
    [None] stands for [NetworkXNoPath]. *)
Variable shortest_path : graph -> Z -> Z -> option (list Z).

Record world : Type := World {
  w_rng : rng;
  w_trace : list event
}.

Definition M (A : Type) : Type := world -> result A * world.

Definition ret {A : Type} (a : A) : M A := fun w => (Ok a, w).

Definition bind {A B : Type} (m : M A) (f : A -> M B) : M B :=
  fun w =>
    match m w with
    | (Ok a, w') => f a w'
    | (Raise e, w') => (Raise e, w')
    end.

Definition lift {A : Type} (r : result A) : M A := fun w => (r, w).

(** The world after some more events. *)
Definition extend (w : world) (evs : list event) : world :=
  World (w_rng w) (w_trace w ++ evs).

Definition emit (e : event) : M unit :=
  fun w => (Ok tt, extend w [e]).

(** [try: body except (NetworkXNoPath, KeyError): handler]. *)
Definition try_except {A : Type} (body : M A) (handler : M A) : M A :=
  fun w =>
    match body w with
    | (Raise NetworkXNoPath, w') => handler w'
    | (Raise KeyError, w') => handler w'
    | other => other
    end.

Notation "x <- m ;; k" := (bind m (fun x => k))
  (at level 63, m at next level, right associativity).
Notation "m ;;; k" := (bind m (fun _ => k))
  (at level 63, right associativity).

(** The first two draws of a generator, and the generator after them. *)
Definition draw1 (s : rng) : R := (random s).1.
Definition draw2 (s : rng) : R := (random (random s).2).1.
Definition after2 (s : rng) : rng := (random (random s).2).2.

(** [random.uniform(a, b)] is [a + (b - a) * random()]. *)
Definition random_uniform (a b : R) : M R :=
  fun w =>
    let (u, g) := random (w_rng w) in
    (Ok (a + (b - a) * u), World g (w_trace w ++ [EvRandom])).

Definition get_random_point_in_circle (lat lon radius_km : R) : M (R * R) :=
  let R0 := 6371 in
  u <- random_uniform 0 1 ;;
  s <- lift (PyMath.sqrt u) ;;
  let r := radius_km * s in
  theta <- random_uniform 0 (2 * PI) ;;
  let lat_rad := PyMath.radians lat in
  let lon_rad := PyMath.radians lon in
  new_lat_rad <- lift (PyMath.asin (sin lat_rad * cos (r / R0) +
                                    cos lat_rad * sin (r / R0) * cos theta)) ;;
  let new_lon_rad :=
    lon_rad + PyMath.atan2 (sin theta * sin (r / R0) * cos lat_rad)
                           (cos (r / R0) - sin lat_rad * sin new_lat_rad) in
  ret (PyMath.degrees new_lat_rad, PyMath.degrees new_lon_rad).

(** [graph.nodes[n][key]]. *)
Definition node_attr (g : graph) (n : Z) (key : string) : result R :=
  d ← getitem (nodes g) n; getitem d key.

(** [graph.edges[u, v, 0]['length']]. *)
Definition edge_length (g : graph) (uv : Z * Z) : result R :=
  d ← getitem (edges g) (uv.1, uv.2, 0%Z); getitem d "length".

(** [sum(...)] over a generator: the items are produced and added from left
    to right, starting from [0]; the first failing item raises. *)
Fixpoint sum_lengths (g : graph) (acc : R) (pairs : list (Z * Z)) : result R :=
  match pairs with
  | [] => Ok acc
  | uv :: rest => x ← edge_length g uv; sum_lengths g (acc + x) rest
  end.

Definition path_length (g : graph) (full_path : list Z) : result R :=
  sum_lengths g 0 (zip (but_last full_path) (but_first full_path)).

Definition call_nearest_nodes (g : graph) (X Y : R) : M Z :=
  emit (EvNearestNodes X Y) ;;; ret (nearest_nodes g X Y).

Definition call_shortest_path (g : graph) (source target : Z) : M (list Z) :=
  emit (EvShortestPath source target) ;;;
  match shortest_path g source target with
  | Some p => ret p
  | None => lift (Raise NetworkXNoPath)
  end.

(** The body of the [try] block of one attempt; [Some p] is [return p],
    [None] falls through to the next iteration. *)
Definition try_body (g : graph) (start_node node_b node_c : Z)
    (min_dist_m max_dist_m : R) : M (option (list Z)) :=
  path_ab <- call_shortest_path g start_node node_b ;;
  path_bc <- call_shortest_path g node_b node_c ;;
  path_ca <- call_shortest_path g node_c start_node ;;
  let full_path := but_last path_ab ++ but_last path_bc ++ path_ca in
  path_length_m <- lift (path_length g full_path) ;;
  if Rle_dec min_dist_m path_length_m then
    if Rle_dec path_length_m max_dist_m then
      emit (EvPrintSuccess path_length_m) ;;; ret (Some full_path)
    else ret None
  else ret None.

(** The test of line 112 that sends an attempt straight to [continue]. *)
Definition degenerate (start_node node_b node_c : Z) : bool :=
  bool_decide (node_b = start_node) || bool_decide (node_c = start_node)
  || bool_decide (node_b = node_c).

(** One iteration of the [for] loop; [None] is [continue]. *)
Definition attempt (g : graph) (start_node : Z) (start_lat start_lon : R)
    (radius_km min_dist_m max_dist_m : R) (max_attempts : Z) (i : nat)
  : M (option (list Z)) :=
  emit (EvPrintAttempt (Z.of_nat i + 1) max_attempts) ;;;
  b <- get_random_point_in_circle start_lat start_lon radius_km ;;
  c <- get_random_point_in_circle start_lat start_lon radius_km ;;
  node_b <- call_nearest_nodes g b.2 b.1 ;;
  node_c <- call_nearest_nodes g c.2 c.1 ;;
  if degenerate start_node node_b node_c then ret None
  else try_except
         (try_body g start_node node_b node_c min_dist_m max_dist_m)
         (ret None).

(** [for i in range(max_attempts)], from iteration [i] with [n] iterations
    left, followed by the closing [print] and [return None]. *)
Fixpoint attempts (g : graph) (start_node : Z) (start_lat start_lon : R)
    (radius_km min_dist_m max_dist_m : R) (max_attempts : Z) (i n : nat)
  : M (option (list Z)) :=
  match n with
  | O => emit EvPrintGiveUp ;;; ret None
  | S n' =>
      r <- attempt g start_node start_lat start_lon radius_km
             min_dist_m max_dist_m max_attempts i ;;
      match r with
      | Some full_path => ret (Some full_path)
      | None => attempts g start_node start_lat start_lon radius_km
                  min_dist_m max_dist_m max_attempts (S i) n'
      end
  end.

(** What a [try] statement that returned a path went through. *)
Definition loop_found (g : graph) (start_node : Z) (min_dist_m max_dist_m : R)
    (p : list Z) : Prop :=
  exists (node_b node_c : Z) (path_ab path_bc path_ca : list Z) (len : R),
    degenerate start_node node_b node_c = false
    /\ shortest_path g start_node node_b = Some path_ab
    /\ shortest_path g node_b node_c = Some path_bc
    /\ shortest_path g node_c start_node = Some path_ca
    /\ p = but_last path_ab ++ but_last path_bc ++ path_ca
    /\ path_length g p = Ok len
    /\ min_dist_m <= len <= max_dist_m.

(** [k] iterations in a row, from iteration [i], that all fall through to
    the next one. *)
Inductive unsuccessful (g : graph) (start_node : Z) (start_lat start_lon : R)
    (radius_km min_dist_m max_dist_m : R) (max_attempts : Z)
  : nat -> nat -> world -> world -> Prop :=
| unsuccessful_0 (i : nat) (w : world) :
    unsuccessful g start_node start_lat start_lon radius_km
      min_dist_m max_dist_m max_attempts i 0 w w
| unsuccessful_S (i k : nat) (w w1 w2 : world) :
    attempt g start_node start_lat start_lon radius_km
      min_dist_m max_dist_m max_attempts i w = (Ok None, w1) ->
    unsuccessful g start_node start_lat start_lon radius_km
      min_dist_m max_dist_m max_attempts (S i) k w1 w2 ->
    unsuccessful g start_node start_lat start_lon radius_km
      min_dist_m max_dist_m max_attempts i (S k) w w2.

(** A call that signals an error before any observable step. *)
Definition fails_fast {A : Type} (w : world) (out : result A * world) : Prop :=
  (exists e, out.1 = Raise e) /\ w_trace out.2 = w_trace w.

Definition generate_walk_in_circle (g : graph) (start_node : Z)
    (total_distance_km tolerance : R) (max_attempts : Z)
  : M (option (list Z)) :=
  let radius_km := total_distance_km / 4 in
  start_lat <- lift (node_attr g start_node "y") ;;
  start_lon <- lift (node_attr g start_node "x") ;;
  let min_dist_m := (total_distance_km * (1 - tolerance)) * 1000 in
  let max_dist_m := (total_distance_km * (1 + tolerance)) * 1000 in
  attempts g start_node start_lat start_lon radius_km min_dist_m max_dist_m
    max_attempts 0 (Z.to_nat max_attempts).

End Defs.

Arguments World {rng} w_rng w_trace.
Arguments w_rng {rng} w.
Arguments w_trace {rng} w.
Arguments ret {rng A} a w.
Arguments bind {rng A B} m f w.
Arguments lift {rng A} r w.
Arguments extend {rng} w evs.
Arguments emit {rng} e w.
Arguments try_except {rng A} body handler w.
Arguments draw1 {rng} random s.
Arguments draw2 {rng} random s.
Arguments after2 {rng} random s.
Arguments random_uniform {rng} random a b w.
Arguments get_random_point_in_circle {rng} random lat lon radius_km w.
Arguments call_nearest_nodes {rng} nearest_nodes g X Y w.
Arguments call_shortest_path {rng} shortest_path g source target w.
Arguments try_body {rng} shortest_path g start_node node_b node_c
  min_dist_m max_dist_m w.
Arguments attempt {rng} random nearest_nodes shortest_path g start_node
  start_lat start_lon radius_km min_dist_m max_dist_m max_attempts i w.
Arguments attempts {rng} random nearest_nodes shortest_path g start_node
  start_lat start_lon radius_km min_dist_m max_dist_m max_attempts i n w.
Arguments unsuccessful {rng} random nearest_nodes shortest_path g start_node
  start_lat start_lon radius_km min_dist_m max_dist_m max_attempts _ _ _ _.
Arguments fails_fast {rng A} w out.
Arguments generate_walk_in_circle {rng} random nearest_nodes shortest_path
  g start_node total_distance_km tolerance max_attempts w.

End Walker.

(** ** The sampler as the specification words it *)

Module SamplerSpec.
Local Open Scope R_scope.

(** A point of the sphere in degrees, [(latitude, longitude)]. *)
Definition valid_geopoint (p : R * R) : Prop :=
  (-90 <= p.1 <= 90) /\ (-180 <= p.2 <= 180).

(** "draw [r = radius_km * sqrt(U1)] and [theta = 2 * pi * U2], then move
    from the centre by [r] along bearing [theta] on a sphere of radius
    6371 km", with the two draws as inputs. *)
Definition sample_point_in_disk (lat lon radius_km U1 U2 : R) : R * R :=
  let R0 := 6371 in
  let r := radius_km * R_sqrt.sqrt U1 in
  let theta := 2 * PI * U2 in
  let phi := PyMath.radians lat in
  let lam := PyMath.radians lon in
  let new_lat := Ratan.asin (sin phi * cos (r / R0) +
                             cos phi * sin (r / R0) * cos theta) in
  let new_lon := lam + PyMath.atan2 (sin theta * sin (r / R0) * cos phi)
                                    (cos (r / R0) - sin phi * sin new_lat) in
  (PyMath.degrees new_lat, PyMath.degrees new_lon).

End SamplerSpec.

(** ** A small road network used to run the program *)

Module Demo.
Local Open Scope R_scope.

(** Node 1 is the start; 1 -> 2 -> 3 -> 1 is a loop of 4000 m. *)
Definition triangle : graph :=
  Graph
    {[ 1%Z := {[ "y" := 0; "x" := 0 ]};
       2%Z := {[ "y" := -1; "x" := 0 ]};
       3%Z := {[ "y" := 1; "x" := 0 ]} ]}
    {[ (1%Z, 2%Z, 0%Z) := {[ "length" := 1000 ]};
       (2%Z, 3%Z, 0%Z) := {[ "length" := 2000 ]};
       (3%Z, 1%Z, 0%Z) := {[ "length" := 1000 ]} ]}.

(** The same nodes with no edge data. *)
Definition bare : graph := Graph (nodes triangle) ∅.

(** A generator that counts its draws; the third draw is 1/4, all others 0. *)
Definition tick (n : nat) : R * nat :=
  (match n with 2%nat => 1 / 4 | _ => 0 end, S n).

(** A generator stuck at 1/4. *)
Definition quarter (u : unit) : R * unit := (1 / 4, u).

(** Points north of the equator resolve to node 3, all others to node 2. *)
Definition north_south (g : graph) (X Y : R) : Z :=
  if Rlt_dec 0 Y then 3%Z else 2%Z.

(** Every point resolves to the start node. *)
Definition always_start (g : graph) (X Y : R) : Z := 1%Z.

(** Shortest paths along the loop only. *)
Definition ring_paths (g : graph) (s t : Z) : option (list Z) :=
  if decide (s = 1 /\ t = 2)%Z then Some [1; 2]%Z
  else if decide (s = 2 /\ t = 3)%Z then Some [2; 3]%Z
  else if decide (s = 3 /\ t = 1)%Z then Some [3; 1]%Z
  else None.

(** A network in which no two nodes are connected. *)
Definition no_paths (g : graph) (s t : Z) : option (list Z) := None.

Definition w0 : Walker.world nat := Walker.World 0%nat [].
Definition q0 : Walker.world unit := Walker.World tt [].

End Demo.

(** ** Map cache, output file and main block (lines 71-83, 131-168) *)

Module Outer.
Local Open Scope R_scope.

(** What the outer program does to the outside world, in order. *)
Inductive io_event : Type :=
| IoPrint (text : string)
| IoLoad (filepath : string)
| IoDownload (place_name : string)
| IoSave (filepath : string)
| IoWrite (filename : string).

Definition is_download (e : io_event) : bool :=
  match e with IoDownload _ => true | _ => false end.
Definition is_save (e : io_event) : bool :=
  match e with IoSave _ => true | _ => false end.

(** The disk as the program sees it: the text of each file by name, and the
    log of what was done. Writing a file is taken to succeed. *)
Record disk : Type := Disk {
  files : gmap string string;
  io_log : list io_event
}.

Definition IO (A : Type) : Type := disk -> result A * disk.

Definition io_ret {A : Type} (a : A) : IO A := fun d => (Ok a, d).

Definition io_bind {A B : Type} (m : IO A) (f : A -> IO B) : IO B :=
  fun d =>
    match m d with
    | (Ok a, d') => f a d'
    | (Raise e, d') => (Raise e, d')
    end.

Definition io_lift {A : Type} (r : result A) : IO A := fun d => (r, d).

Definition io_emit (e : io_event) : IO unit :=
  fun d => (Ok tt, Disk (files d) (io_log d ++ [e])).

(** [print(text)]. *)
Definition say (text : string) : IO unit := io_emit (IoPrint text).

(** Writing [text] to the file [name], created or truncated. *)
Definition put_file (name text : string) : IO unit :=
  fun d => (Ok tt, Disk (<[name := text]> (files d)) (io_log d)).

Definition nl : string := String (Ascii.ascii_of_nat 10) EmptyString.

Definition base_url : string := "https://www.google.com/maps/dir/".

(** The text [save_path_for_gmaps] writes, one [f.write] after the other. *)
Definition file_text (gmaps_url : string) (full_coords : list string) : string :=
  ("--- Your Random Walk for Google Maps ---" +:+ nl +:+ nl)
  +:+ ("Option 1: Clickable Link (Best for Phones)" +:+ nl)
  +:+ ("Copy this entire link and open it in your phone's browser:"
       +:+ nl +:+ nl)
  +:+ gmaps_url
  +:+ (nl +:+ nl +:+ "-------------------------------------------------"
       +:+ nl +:+ nl)
  +:+ ("Option 2: Full Coordinate List (for other mapping tools)"
       +:+ nl +:+ nl)
  +:+ String.concat nl full_coords.

(** A node whose two coordinates can be read off the network. *)
Definition located (g : graph) (node : Z) : Prop :=
  exists y x : R,
    Walker.node_attr g node "y" = Ok y /\ Walker.node_attr g node "x" = Ok x.

(** [if random_path:] holds for a path that is neither [None] nor empty. *)
Definition truthy (random_path : option (list Z)) : bool :=
  match random_path with
  | Some (_ :: _) => true
  | _ => false
  end.

Section Defs.

(** [ox.load_graphml] on the text of a file, [ox.graph_from_place] with
    [network_type="walk"], the text [ox.save_graphml] writes, and the text
    an f-string gives for a coordinate. *)
Variable load_graphml : string -> result graph.
Variable graph_from_place : string -> result graph.
Variable save_graphml : graph -> string.
Variable show : R -> string.

Notation "x <- m ;; k" := (io_bind m (fun x => k))
  (at level 63, m at next level, right associativity).
Notation "m ;;; k" := (io_bind m (fun _ => k))
  (at level 63, right associativity).

Definition setup_map_graph (place_name filepath : string) : IO graph :=
  fun d =>
    match files d !! filepath with
    | Some text =>
        (say ("Map file '" +:+ filepath +:+ "' found. Loading from disk...") ;;;
         io_emit (IoLoad filepath) ;;;
         graph <- io_lift (load_graphml text) ;;
         say "Map loaded successfully." ;;;
         io_ret graph) d
    | None =>
        (say ("Map file not found. Downloading map for '" +:+ place_name
              +:+ "'...") ;;;
         say "This is a one-time download and may take several minutes." ;;;
         io_emit (IoDownload place_name) ;;;
         graph <- io_lift (graph_from_place place_name) ;;
         io_emit (IoSave filepath) ;;;
         put_file filepath (save_graphml graph) ;;;
         say ("Map downloaded and saved to '" +:+ filepath
              +:+ "' for future use.") ;;;
         io_ret graph) d
    end.

(** [f"{graph.nodes[node]['y']},{graph.nodes[node]['x']}"]. *)
Definition coord (g : graph) (node : Z) : result string :=
  y ← Walker.node_attr g node "y";
  x ← Walker.node_attr g node "x";
  Ok (show y +:+ "," +:+ show x).

(** [[f"..." for node in l]]: the first failing node raises. *)
Fixpoint coords (g : graph) (l : list Z) : result (list string) :=
  match l with
  | [] => Ok []
  | node :: rest =>
      c ← coord g node; cs ← coords g rest; Ok (c :: cs)
  end.

Definition save_path_for_gmaps (g : graph) (path_nodes : list Z)
    (filename : string) : IO unit :=
  url_nodes <- io_lift (Reducer.url_nodes path_nodes) ;;
  url_coords <- io_lift (coords g url_nodes) ;;
  let gmaps_url := base_url +:+ String.concat "/" url_coords in
  full_coords <- io_lift (coords g path_nodes) ;;
  io_emit (IoWrite filename) ;;;
  put_file filename (file_text gmaps_url full_coords) ;;;
  say ("Path saved! Check the file '" +:+ filename
       +:+ "' for your Google Maps link.").

(** The main block, with the configuration constants as arguments and the
    default of 50 attempts. The state is the walker's world and the disk. *)
Variable rng : Type.
Variable random : rng -> R * rng.
Variable nearest_nodes : graph -> R -> R -> Z.
Variable shortest_path : graph -> Z -> Z -> option (list Z).

Definition main (place_name map_filename : string) (start_lat_lon : R * R)
    (target_distance_km distance_tolerance : R) (output_filename : string)
    (w : Walker.world rng) (d : disk)
  : result unit * (Walker.world rng * disk) :=
  match setup_map_graph place_name map_filename d with
  | (Raise e, d1) => (Raise e, (w, d1))
  | (Ok G, d1) =>
      match Walker.call_nearest_nodes nearest_nodes G
              start_lat_lon.2 start_lat_lon.1 w with
      | (Raise e, w1) => (Raise e, (w1, d1))
      | (Ok start_node, w1) =>
          match Walker.generate_walk_in_circle random nearest_nodes
                  shortest_path G start_node target_distance_km
                  distance_tolerance 50 w1 with
          | (Raise e, w2) => (Raise e, (w2, d1))
          | (Ok random_path, w2) =>
              if truthy random_path then
                match save_path_for_gmaps G (default [] random_path)
                        output_filename d1 with
                | (r, d2) => (r, (w2, d2))
                end
              else (Ok tt, (w2, d1))
          end
      end
  end.

End Defs.

Arguments main load_graphml graph_from_place save_graphml show {rng} random
  nearest_nodes shortest_path place_name map_filename start_lat_lon
  target_distance_km distance_tolerance output_filename w d.

End Outer.

(** ** A disk and a map provider used to run the outer program *)

Module DemoOuter.

(** The provider serves the triangle for every place; its file text is the
    word "triangle", which is also the only text that loads. *)
Definition download (place_name : string) : result graph := Ok Demo.triangle.
Definition save (g : graph) : string := "triangle".
Definition load (text : string) : result graph :=
  if decide (text = "triangle") then Ok Demo.triangle else Raise ValueError.

(** Coordinates are shown by their sign only. *)
Definition show (x : R) : string :=
  if Rlt_dec x 0 then "-" else if Rlt_dec 0 x then "+" else "0".

Definition empty_disk : Outer.disk := Outer.Disk ∅ [].

(** Points south of the equator resolve to node 1, points north of it to
    node 3 and points on it to node 2. *)
Definition by_latitude (g : graph) (X Y : R) : Z :=
  if Rlt_dec Y 0 then 1%Z else if Rlt_dec 0 Y then 3%Z else 2%Z.

End DemoOuter.

(** * Properties *)

Import Walker SamplerSpec.
Local Open Scope R_scope.

(** ** Real-number facts behind the sampler *)

Section MathFacts.
Local Open Scope R_scope.

Lemma sin_cos_unit (x : R) : sin x * sin x + cos x * cos x = 1.
Proof. generalize (sin2_cos2 x). unfold Rsqr. tauto. Qed.

(** The argument handed to [math.asin] is the cosine of an angular distance. *)
Lemma asin_arg_bound (a d t : R) :
  -1 <= sin a * cos d + cos a * sin d * cos t <= 1.
Proof.
  pose proof (sin_cos_unit a) as Ha.
  pose proof (sin_cos_unit d) as Hd.
  pose proof (sin_cos_unit t) as Ht.
  set (sa := sin a) in *. set (ca := cos a) in *.
  set (sd := sin d) in *. set (cd := cos d) in *.
  set (st := sin t) in *. set (ct := cos t) in *.
  assert (Hsq : (sa * cd + ca * sd * ct) * (sa * cd + ca * sd * ct) <= 1).
  { assert (One : 1 = (sa * sa + ca * ca)
                      * (cd * cd + sd * sd * (st * st + ct * ct))).
    { rewrite Ha, Ht. lra. }
    assert (K : (sa * sa + ca * ca)
                * (cd * cd + sd * sd * (st * st + ct * ct))
                - (sa * cd + ca * sd * ct) * (sa * cd + ca * sd * ct)
                = (sa * sd * ct - ca * cd) * (sa * sd * ct - ca * cd)
                  + (sa * sa + ca * ca) * ((sd * st) * (sd * st))) by ring.
    rewrite <- One in K. rewrite Ha in K.
    pose proof (Rle_0_sqr (sa * sd * ct - ca * cd)) as H1.
    pose proof (Rle_0_sqr (sd * st)) as H2.
    unfold Rsqr in H1, H2. lra. }
  split; nra.
Qed.

Lemma asin_total (x : R) : -1 <= x <= 1 -> PyMath.asin x = Ok (Ratan.asin x).
Proof.
  intros [H1 H2]. unfold PyMath.asin.
  destruct (Rlt_dec x (-1)); [lra|].
  destruct (Rlt_dec 1 x); [lra|]. reflexivity.
Qed.

Lemma sqrt_total (x : R) : 0 <= x -> PyMath.sqrt x = Ok (R_sqrt.sqrt x).
Proof.
  intros H. unfold PyMath.sqrt. destruct (Rlt_dec x 0); [lra|reflexivity].
Qed.

Lemma atan2_bound (y x : R) : - PI <= PyMath.atan2 y x <= PI.
Proof.
  pose proof PI_RGT_0 as HPI.
  pose proof (atan_bound (y / x)) as Hb.
  unfold PyMath.atan2.
  destruct (Rlt_dec 0 x) as [Hx|Hx]; [lra|].
  destruct (Rlt_dec x 0) as [Hx'|Hx'].
  - destruct (Rle_dec 0 y) as [Hy|Hy].
    + assert (Hi : 0 < / (- x)) by (apply Rinv_0_lt_compat; lra).
      assert (E : y / x = - (y * / (- x))) by (field; lra).
      assert (Hq : y / x <= 0) by (rewrite E; nra).
      assert (atan (y / x) <= 0).
      { rewrite <- atan_0. destruct Hq as [Hq|Hq].
        - left. apply atan_increasing. exact Hq.
        - rewrite Hq. lra. }
      lra.
    + assert (Hi : 0 < / (- x)) by (apply Rinv_0_lt_compat; lra).
      assert (E : y / x = (- y) * / (- x)) by (field; lra).
      assert (Hq : 0 < y / x) by (rewrite E; nra).
      assert (0 < atan (y / x)).
      { rewrite <- atan_0. apply atan_increasing. exact Hq. }
      lra.
  - destruct (Rlt_dec 0 y); [lra|]. destruct (Rlt_dec y 0); lra.
Qed.

Lemma degrees_radians (x : R) : PyMath.degrees (PyMath.radians x) = x.
Proof.
  unfold PyMath.degrees, PyMath.radians.
  pose proof PI_RGT_0. field. lra.
Qed.

Lemma degrees_plus (x y : R) :
  PyMath.degrees (x + y) = PyMath.degrees x + PyMath.degrees y.
Proof. unfold PyMath.degrees. ring. Qed.

Lemma degrees_le (x y : R) : x <= y -> PyMath.degrees x <= PyMath.degrees y.
Proof.
  intros H. unfold PyMath.degrees. apply Rmult_le_compat_r; [|exact H].
  pose proof PI_RGT_0. left. apply Rdiv_lt_0_compat; lra.
Qed.

Lemma degrees_lt (x y : R) : x < y -> PyMath.degrees x < PyMath.degrees y.
Proof.
  intros H. unfold PyMath.degrees. apply Rmult_lt_compat_r; [|exact H].
  pose proof PI_RGT_0. apply Rdiv_lt_0_compat; lra.
Qed.

Lemma degrees_half_PI : PyMath.degrees (PI / 2) = 90.
Proof. unfold PyMath.degrees. pose proof PI_RGT_0. field. lra. Qed.

Lemma degrees_opp (x : R) : PyMath.degrees (- x) = - PyMath.degrees x.
Proof. unfold PyMath.degrees. ring. Qed.

Lemma radians_bound (x : R) :
  -90 <= x <= 90 -> - (PI / 2) <= PyMath.radians x <= PI / 2.
Proof.
  intros [H1 H2]. unfold PyMath.radians. pose proof PI_RGT_0 as HPI.
  assert (0 < PI / 180) by (apply Rdiv_lt_0_compat; lra).
  split.
  - replace (- (PI / 2)) with ((-90) * (PI / 180)) by field.
    apply Rmult_le_compat_r; lra.
  - replace (PI / 2) with (90 * (PI / 180)) by field.
    apply Rmult_le_compat_r; lra.
Qed.

End MathFacts.

(** ** The sampler *)

Section SamplerProps.
Local Open Scope R_scope.
Import Walker SamplerSpec.

Variable rng : Type.
Variable random : rng -> R * rng.

(** [random.random()] yields numbers of [[0, 1)]. *)
Hypothesis random_range : forall s : rng, 0 <= (random s).1 < 1.

Lemma sampler_run (lat lon radius_km : R) (w : world rng) :
  get_random_point_in_circle random lat lon radius_km w
  = (Ok (sample_point_in_disk lat lon radius_km
           (draw1 random (w_rng w)) (draw2 random (w_rng w))),
     World (after2 random (w_rng w)) (w_trace w ++ [EvRandom; EvRandom])).
Proof.
  unfold get_random_point_in_circle, bind, random_uniform, lift, ret.
  unfold draw1, draw2, after2, sample_point_in_disk.
  pose proof (random_range (w_rng w)) as Hu.
  destruct (random (w_rng w)) as [u g1]. cbn [fst snd w_rng w_trace] in *.
  replace (0 + (1 - 0) * u) with u by ring.
  rewrite sqrt_total by lra.
  destruct (random g1) as [v g2]. cbn [fst snd w_rng w_trace].
  replace (0 + (2 * PI - 0) * v) with (2 * PI * v) by ring.
  rewrite asin_total by apply asin_arg_bound.
  rewrite <- app_assoc. reflexivity.
Qed.

End SamplerProps.

Section SamplerFacts.
Local Open Scope R_scope.
Import Walker SamplerSpec.

Lemma atan2_0_nonneg (x : R) : 0 <= x -> PyMath.atan2 0 x = 0.
Proof.
  intros Hx. unfold PyMath.atan2.
  destruct (Rlt_dec 0 x).
  - replace (0 / x) with 0 by (field; lra). apply atan_0.
  - destruct (Rlt_dec x 0); [lra|].
    destruct (Rlt_dec 0 0); [lra|]. destruct (Rlt_dec 0 0); [lra|reflexivity].
Qed.

(** With no offset the projection gives back a valid centre. *)
Lemma sample_no_offset (lat lon radius_km U1 U2 : R) :
  -90 <= lat <= 90 -> radius_km * R_sqrt.sqrt U1 = 0 ->
  sample_point_in_disk lat lon radius_km U1 U2 = (lat, lon).
Proof.
  intros Hlat Hr. unfold sample_point_in_disk. cbv zeta. rewrite Hr.
  replace (0 / 6371) with 0 by field.
  rewrite cos_0, sin_0.
  replace (sin (PyMath.radians lat) * 1 + cos (PyMath.radians lat) * 0 *
           cos (2 * PI * U2)) with (sin (PyMath.radians lat)) by ring.
  rewrite asin_sin by (apply radians_bound; exact Hlat).
  replace (sin (2 * PI * U2) * 0 * cos (PyMath.radians lat)) with 0 by ring.
  rewrite atan2_0_nonneg.
  - rewrite Rplus_0_r, !degrees_radians. reflexivity.
  - pose proof (sin_cos_unit (PyMath.radians lat)).
    pose proof (Rle_0_sqr (cos (PyMath.radians lat))) as Hc.
    unfold Rsqr in Hc. lra.
Qed.

Lemma sample_lat_bound (lat lon radius_km U1 U2 : R) :
  -90 <= (sample_point_in_disk lat lon radius_km U1 U2).1 <= 90.
Proof.
  unfold sample_point_in_disk. cbv zeta. cbn [fst].
  match goal with |- _ <= PyMath.degrees (Ratan.asin ?x) <= _ =>
    pose proof (asin_bound x) as [H1 H2] end.
  split.
  - replace (-90) with (PyMath.degrees (- (PI / 2)))
      by (rewrite degrees_opp, degrees_half_PI; reflexivity).
    apply degrees_le. exact H1.
  - rewrite <- degrees_half_PI. apply degrees_le. exact H2.
Qed.

(** The longitude is the centre's, moved by what [math.atan2] returned. *)
Lemma sample_lon_offset (lat lon radius_km U1 U2 : R) :
  exists a : R,
    - PI <= a <= PI
    /\ (sample_point_in_disk lat lon radius_km U1 U2).2
       = PyMath.degrees (PyMath.radians lon + a).
Proof.
  unfold sample_point_in_disk. cbv zeta. cbn [snd].
  match goal with |- context [PyMath.atan2 ?y ?x] =>
    exists (PyMath.atan2 y x); split; [apply atan2_bound|reflexivity] end.
Qed.

Lemma atan2_sin_cos (d : R) :
  - (PI / 2) < d < PI / 2 -> PyMath.atan2 (sin d) (cos d) = d.
Proof.
  intros [H1 H2]. unfold PyMath.atan2.
  pose proof (cos_gt_0 d H1 H2) as Hc.
  destruct (Rlt_dec 0 (cos d)); [|lra].
  change (sin d / cos d) with (tan d). apply atan_tan. lra.
Qed.

Lemma quarter_range (s : unit) : 0 <= (Demo.quarter s).1 < 1.
Proof. cbn. lra. Qed.

Lemma tick_range (s : nat) : 0 <= (Demo.tick s).1 < 1.
Proof. unfold Demo.tick. cbn [fst]. destruct s as [|[|[|s]]]; lra. Qed.

(** A sample due east of a centre on the antimeridian. *)
Lemma sample_east_of_antimeridian :
  180 < (sample_point_in_disk 0 180 1 (1 / 4) (1 / 4)).2.
Proof.
  unfold sample_point_in_disk. cbv zeta. cbn [snd].
  set (d := 1 * R_sqrt.sqrt (1 / 4) / 6371).
  assert (Hs0 : 0 < R_sqrt.sqrt (1 / 4)) by (apply sqrt_lt_R0; lra).
  assert (Hs1 : R_sqrt.sqrt (1 / 4) <= 1).
  { rewrite <- sqrt_1 at 2. apply sqrt_le_1; lra. }
  assert (Hd : 0 < d <= 1) by (unfold d; lra).
  pose proof PI2_1 as HP.
  replace (2 * PI * (1 / 4)) with (PI / 2) by field.
  replace (PyMath.radians 0) with 0 by (unfold PyMath.radians; ring).
  rewrite sin_PI2, cos_PI2, sin_0, cos_0.
  replace (0 * cos d + 1 * sin d * 0) with 0 by ring.
  rewrite asin_0, sin_0.
  replace (1 * sin d * 1) with (sin d) by ring.
  replace (cos d - 0 * 0) with (cos d) by ring.
  rewrite atan2_sin_cos by lra.
  rewrite degrees_plus, degrees_radians.
  assert (0 < PyMath.degrees d).
  { replace 0 with (PyMath.degrees 0) by (unfold PyMath.degrees; ring).
    apply degrees_lt. lra. }
  lra.
Qed.

End SamplerFacts.

(** ** Claims about the sampler *)

Section SamplerClaims.
Local Open Scope R_scope.
Import Walker SamplerSpec.

Variable rng : Type.
Variable random : rng -> R * rng.

(** Whatever the sampler does: a point it returns is the reference point at
    the two numbers drawn, and a failure comes out of [math]. *)
Lemma sampler_outcome (lat lon radius_km : R) (w w' : world rng)
    (r : result (R * R)) :
  get_random_point_in_circle random lat lon radius_km w = (r, w') ->
  (forall p, r = Ok p ->
     p = sample_point_in_disk lat lon radius_km
           (draw1 random (w_rng w)) (draw2 random (w_rng w))
     /\ w' = World (after2 random (w_rng w))
               (w_trace w ++ [EvRandom; EvRandom]))
  /\ (forall e, r = Raise e -> e = ValueError).
Proof.
  unfold get_random_point_in_circle, bind, random_uniform, lift, ret,
    PyMath.sqrt, PyMath.asin, draw1, draw2, after2, sample_point_in_disk.
  destruct (random (w_rng w)) as [u g1]. cbn [fst snd w_rng w_trace].
  replace (0 + (1 - 0) * u) with u by ring.
  destruct (Rlt_dec u 0).
  { intros [= <- <-]. split; [discriminate|congruence]. }
  cbn [fst snd w_rng w_trace]. destruct (random g1) as [v g2].
  cbn [fst snd]. replace (0 + (2 * PI - 0) * v) with (2 * PI * v) by ring.
  repeat match goal with
  | |- context [if ?c then _ else _] => destruct c
  end; intros [= <- <-]; (split; [|congruence]); try discriminate.
  intros p [= <-]. rewrite <- app_assoc. split; reflexivity.
Qed.


(** C7, as the program has it. A point the sampler returns has its latitude
    in [[-90, 90]]; its longitude is the centre's longitude moved by an
    angle between [-PI] and [PI], converted to degrees, and is not wrapped. *)
Theorem sampler_point_bounds (lat lon radius_km : R) (w w' : world rng)
    (p : R * R) :
  get_random_point_in_circle random lat lon radius_km w = (Ok p, w') ->
  -90 <= p.1 <= 90
  /\ exists a : R,
       - PI <= a <= PI /\ p.2 = PyMath.degrees (PyMath.radians lon + a).
Proof.
  intros H. apply sampler_outcome in H as [H _].
  destruct (H p eq_refl) as [-> _].
  split; [apply sample_lat_bound|apply sample_lon_offset].
Qed.

(** [random.random()] yields numbers of [[0, 1)]. *)
Hypothesis random_range : forall s : rng, 0 <= (random s).1 < 1.



End SamplerClaims.



Lemma sampler_point_bounds_witness :
  -90 <= (sample_point_in_disk 0 180 1 (1 / 4) (1 / 4)).1 <= 90
  /\ exists a : R,
       - PI <= a <= PI
       /\ (sample_point_in_disk 0 180 1 (1 / 4) (1 / 4)).2
          = PyMath.degrees (PyMath.radians 180 + a).
Proof.
  apply (sampler_point_bounds unit Demo.quarter 0 180 1 Demo.q0 _ _
           (sampler_run unit Demo.quarter quarter_range 0 180 1 Demo.q0)).
Defined.

(** C7 as stated fails: from the valid centre (0, 180) with radius 1 km and
    both draws equal to 1/4, the returned longitude exceeds 180. *)
Lemma sampler_longitude_not_wrapped :
  exists (p : R * R) (w' : world unit),
    get_random_point_in_circle Demo.quarter 0 180 1 Demo.q0 = (Ok p, w')
    /\ SamplerSpec.valid_geopoint (0, 180)
    /\ ~ SamplerSpec.valid_geopoint p.
Proof.
  eexists _, _. split; [apply sampler_run; exact quarter_range|].
  split.
  - unfold SamplerSpec.valid_geopoint. cbn [fst snd]. lra.
  - unfold SamplerSpec.valid_geopoint. intros [_ [_ H]].
    pose proof sample_east_of_antimeridian as E.
    unfold draw1, draw2, Demo.quarter, Demo.q0 in H. cbn [fst snd w_rng] in H.
    lra.
Qed.

(** ** The loop builder, step by step *)

Section WalkSteps.

Variable rng : Type.
Variable random : rng -> R * rng.
Variable nearest_nodes : graph -> R -> R -> Z.
Variable shortest_path : graph -> Z -> Z -> option (list Z).

Lemma extend_extend (w : world rng) (e1 e2 : list event) :
  extend (extend w e1) e2 = extend w (e1 ++ e2).
Proof. unfold extend. cbn. rewrite app_assoc. reflexivity. Qed.

Lemma extend_nil (w : world rng) : extend w [] = w.
Proof. destruct w. unfold extend. cbn. rewrite app_nil_r. reflexivity. Qed.

(** The length computation can only fail on a missing dictionary key. *)
Lemma getitem_raises `{Countable K} {V : Type} (d : gmap K V) (k : K) (e : exn) :
  getitem d k = Raise e -> e = KeyError.
Proof. unfold getitem. destruct (d !! k); congruence. Qed.

Lemma edge_length_raises (g : graph) (uv : Z * Z) (e : exn) :
  edge_length g uv = Raise e -> e = KeyError.
Proof.
  unfold edge_length. destruct (getitem (edges g) _) as [d|e'] eqn:E; cbn.
  - apply getitem_raises.
  - intros [= <-]. eapply getitem_raises, E.
Qed.

Lemma sum_lengths_raises (g : graph) (pairs : list (Z * Z)) (acc : R) (e : exn) :
  sum_lengths g acc pairs = Raise e -> e = KeyError.
Proof.
  revert acc. induction pairs as [|uv rest IH]; intros acc; cbn.
  - discriminate.
  - destruct (edge_length g uv) as [x|e'] eqn:E; cbn.
    + apply IH.
    + intros [= <-]. eapply edge_length_raises, E.
Qed.

Lemma path_length_raises (g : graph) (p : list Z) (e : exn) :
  path_length g p = Raise e -> e = KeyError.
Proof. apply sum_lengths_raises. Qed.

(** The [try] statement of one attempt, case by case. *)
Lemma try_block_run (g : graph) (start_node node_b node_c : Z)
    (min_dist_m max_dist_m : R) (w : world rng) :
  try_except
    (try_body shortest_path g start_node node_b node_c min_dist_m max_dist_m)
    (ret None) w
  = match shortest_path g start_node node_b with
    | None => (Ok None, extend w [EvShortestPath start_node node_b])
    | Some path_ab =>
      match shortest_path g node_b node_c with
      | None => (Ok None, extend w [EvShortestPath start_node node_b;
                                    EvShortestPath node_b node_c])
      | Some path_bc =>
        let evs := [EvShortestPath start_node node_b;
                    EvShortestPath node_b node_c;
                    EvShortestPath node_c start_node] in
        match shortest_path g node_c start_node with
        | None => (Ok None, extend w evs)
        | Some path_ca =>
          let full_path := but_last path_ab ++ but_last path_bc ++ path_ca in
          match path_length g full_path with
          | Ok path_length_m =>
              if Rle_dec min_dist_m path_length_m then
                if Rle_dec path_length_m max_dist_m then
                  (Ok (Some full_path),
                   extend w (evs ++ [EvPrintSuccess path_length_m]))
                else (Ok None, extend w evs)
              else (Ok None, extend w evs)
          | Raise _ => (Ok None, extend w evs)
          end
        end
      end
    end.
Proof.
  unfold try_except, try_body, call_shortest_path, bind, emit, lift, ret.
  destruct (shortest_path g start_node node_b) as [pab|]; [|reflexivity].
  rewrite !extend_extend.
  destruct (shortest_path g node_b node_c) as [pbc|]; [|reflexivity].
  rewrite !extend_extend.
  destruct (shortest_path g node_c start_node) as [pca|]; [|reflexivity].
  cbv zeta.
  destruct (path_length g _) as [len|e] eqn:E.
  - destruct (Rle_dec min_dist_m len); [|reflexivity].
    destruct (Rle_dec len max_dist_m); [|reflexivity].
    rewrite !extend_extend. reflexivity.
  - apply path_length_raises in E. subst e. reflexivity.
Qed.

(** The sampler only draws from the generator, at most twice, and can only
    fail inside [math]. *)
Lemma sampler_inv (lat lon radius_km : R) (w w' : world rng)
    (r : result (R * R)) :
  get_random_point_in_circle random lat lon radius_km w = (r, w') ->
  (exists evs, w_trace w' = w_trace w ++ evs
               /\ Forall (fun e => is_random e = true) evs)
  /\ (forall e, r = Raise e -> e = ValueError).
Proof.
  unfold get_random_point_in_circle, bind, random_uniform, lift, ret,
    PyMath.sqrt, PyMath.asin.
  destruct (random (w_rng w)) as [u g1]. cbn [w_rng w_trace].
  destruct (Rlt_dec (0 + (1 - 0) * u) 0).
  { intros [= <- <-]. split; [|congruence].
    exists [EvRandom]. split; [reflexivity|]. repeat constructor. }
  cbn [w_rng w_trace]. destruct (random g1) as [v g2].
  assert (Hev : Forall (fun e => is_random e = true) [EvRandom; EvRandom])
    by (repeat constructor).
  repeat match goal with
  | |- context [if ?c then _ else _] => destruct c
  end; intros [= <- <-]; (split; [|congruence]);
  exists [EvRandom; EvRandom]; (split; [|exact Hev]);
  cbn [w_rng w_trace]; rewrite <- app_assoc; reflexivity.
Qed.

(** One attempt once its two samples are known. *)
Lemma attempt_sampled (g : graph) (start_node : Z) (start_lat start_lon : R)
    (radius_km min_dist_m max_dist_m : R) (max_attempts : Z) (i : nat)
    (w w1 w2 : world rng) (b c : R * R) :
  get_random_point_in_circle random start_lat start_lon radius_km
    (extend w [EvPrintAttempt (Z.of_nat i + 1) max_attempts]) = (Ok b, w1) ->
  get_random_point_in_circle random start_lat start_lon radius_km w1
    = (Ok c, w2) ->
  attempt random nearest_nodes shortest_path g start_node start_lat start_lon
    radius_km min_dist_m max_dist_m max_attempts i w
  = let node_b := nearest_nodes g b.2 b.1 in
    let node_c := nearest_nodes g c.2 c.1 in
    let w4 := extend w2 [EvNearestNodes b.2 b.1; EvNearestNodes c.2 c.1] in
    if degenerate start_node node_b node_c then (Ok None, w4)
    else try_except
           (try_body shortest_path g start_node node_b node_c
              min_dist_m max_dist_m)
           (ret None) w4.
Proof.
  intros Hb Hc. unfold attempt, bind, emit, call_nearest_nodes.
  rewrite Hb, Hc. unfold bind, emit, ret. rewrite extend_extend.
  cbv zeta. change ([EvNearestNodes b.2 b.1] ++ [EvNearestNodes c.2 c.1])
    with [EvNearestNodes b.2 b.1; EvNearestNodes c.2 c.1].
  destruct (degenerate _ _ _); reflexivity.
Qed.

Lemma try_block_inv (g : graph) (start_node node_b node_c : Z)
    (min_dist_m max_dist_m : R) (w w' : world rng)
    (r : result (option (list Z))) :
  try_except
    (try_body shortest_path g start_node node_b node_c min_dist_m max_dist_m)
    (ret None) w = (r, w') ->
  exists (o : option (list Z)) (evs : list event),
    r = Ok o /\ w' = extend w evs
    /\ Forall (fun e => is_attempt e = false) evs
    /\ (forall p, o = Some p ->
        degenerate start_node node_b node_c = false ->
        loop_found shortest_path g start_node min_dist_m max_dist_m p).
Proof.
  rewrite try_block_run. cbv zeta.
  destruct (shortest_path g start_node node_b) as [pab|] eqn:Eab;
    [|intros [= <- <-]; eexists _, _;
      repeat split; [repeat constructor|discriminate]].
  destruct (shortest_path g node_b node_c) as [pbc|] eqn:Ebc;
    [|intros [= <- <-]; eexists _, _;
      repeat split; [repeat constructor|discriminate]].
  destruct (shortest_path g node_c start_node) as [pca|] eqn:Eca;
    [|intros [= <- <-]; eexists _, _;
      repeat split; [repeat constructor|discriminate]].
  destruct (path_length g _) as [len|e] eqn:El;
    [|intros [= <- <-]; eexists _, _;
      repeat split; [repeat constructor|discriminate]].
  destruct (Rle_dec min_dist_m len) as [Hmin|];
    [|intros [= <- <-]; eexists _, _;
      repeat split; [repeat constructor|discriminate]].
  destruct (Rle_dec len max_dist_m) as [Hmax|];
    [|intros [= <- <-]; eexists _, _;
      repeat split; [repeat constructor|discriminate]].
  intros [= <- <-]. eexists _, _. repeat split; [repeat constructor|].
  intros p [= <-] Hd. exists node_b, node_c, pab, pbc, pca, len.
  repeat split; assumption.
Qed.

(** Every attempt prints its banner first and nothing like it afterwards;
    it can fail only inside the sampler; a path it returns went through the
    whole [try] statement. *)
Lemma attempt_inv (g : graph) (start_node : Z) (start_lat start_lon : R)
    (radius_km min_dist_m max_dist_m : R) (max_attempts : Z) (i : nat)
    (w w' : world rng) (r : result (option (list Z))) :
  attempt random nearest_nodes shortest_path g start_node start_lat start_lon
    radius_km min_dist_m max_dist_m max_attempts i w = (r, w') ->
  (exists evs,
     w_trace w' = w_trace w
                  ++ EvPrintAttempt (Z.of_nat i + 1) max_attempts :: evs
     /\ Forall (fun e => is_attempt e = false) evs)
  /\ (forall e, r = Raise e -> e = ValueError)
  /\ (forall p, r = Ok (Some p) ->
      loop_found shortest_path g start_node min_dist_m max_dist_m p).
Proof.
  assert (Hra : forall evs, Forall (fun e => is_random e = true) evs ->
                Forall (fun e => is_attempt e = false) evs).
  { intros evs H. eapply Forall_impl; [exact H|].
    intros [] E; cbn in *; congruence. }
  unfold attempt, bind, emit.
  destruct (get_random_point_in_circle _ _ _ _ (extend w _)) as [rb w1] eqn:Hb.
  apply sampler_inv in Hb as [(e1 & Hw1 & He1) Hrb].
  cbn [extend w_trace] in Hw1.
  destruct rb as [b|eb].
  2:{ intros [= <- <-]. split; [|split; [intros e [= <-]; eauto|discriminate]].
      exists e1. rewrite Hw1. rewrite <- app_assoc. split; [reflexivity|].
      apply Hra, He1. }
  destruct (get_random_point_in_circle _ _ _ _ w1) as [rc w2] eqn:Hc.
  apply sampler_inv in Hc as [(e2 & Hw2 & He2) Hrc].
  assert (Ht2 : w_trace w2 = w_trace w ++
            EvPrintAttempt (Z.of_nat i + 1) max_attempts :: (e1 ++ e2)).
  { rewrite Hw2, Hw1. rewrite <- !app_assoc. reflexivity. }
  destruct rc as [c|ec].
  2:{ intros [= <- <-]. split; [|split; [intros e [= <-]; eauto|discriminate]].
      eexists. split; [exact Ht2|]. apply Forall_app. split; apply Hra; assumption. }
  unfold call_nearest_nodes, bind, emit, ret. rewrite extend_extend.
  destruct (degenerate _ _ _) eqn:Hd.
  - intros [= <- <-]. split; [|split; discriminate].
    eexists. cbn [extend w_trace]. rewrite Ht2, <- app_assoc. split; [reflexivity|].
    rewrite Forall_app. split.
    + apply Forall_app. split; apply Hra; assumption.
    + repeat constructor.
  - intros Ht. apply try_block_inv in Ht as (o & evs & -> & -> & Hevs & Hp).
    split; [|split; [discriminate|]].
    + eexists. cbn [extend w_trace]. rewrite Ht2, <- !app_assoc.
      split; [reflexivity|].
      rewrite !Forall_app.
      repeat split; try (apply Hra; assumption); try exact Hevs;
        repeat constructor.
    + intros p [= ->]. apply Hp; [reflexivity|exact Hd].
Qed.

(** The loop goes on after an attempt that falls through. *)
Lemma attempts_continue (g : graph) (start_node : Z) (start_lat start_lon : R)
    (radius_km min_dist_m max_dist_m : R) (max_attempts : Z) (i n : nat)
    (w w' : world rng) :
  attempt random nearest_nodes shortest_path g start_node start_lat start_lon
    radius_km min_dist_m max_dist_m max_attempts i w = (Ok None, w') ->
  attempts random nearest_nodes shortest_path g start_node start_lat start_lon
    radius_km min_dist_m max_dist_m max_attempts i (S n) w
  = attempts random nearest_nodes shortest_path g start_node start_lat
      start_lon radius_km min_dist_m max_dist_m max_attempts (S i) n w'.
Proof. intros H. cbn [attempts]. unfold bind. rewrite H. reflexivity. Qed.

(** The loop stops at an attempt that returns a path. *)
Lemma attempts_stop (g : graph) (start_node : Z) (start_lat start_lon : R)
    (radius_km min_dist_m max_dist_m : R) (max_attempts : Z) (i n : nat)
    (w w' : world rng) (p : list Z) :
  attempt random nearest_nodes shortest_path g start_node start_lat start_lon
    radius_km min_dist_m max_dist_m max_attempts i w = (Ok (Some p), w') ->
  attempts random nearest_nodes shortest_path g start_node start_lat start_lon
    radius_km min_dist_m max_dist_m max_attempts i (S n) w
  = (Ok (Some p), w').
Proof. intros H. cbn [attempts]. unfold bind. rewrite H. reflexivity. Qed.

Lemma count_app (p : event -> bool) (e1 e2 : list event) :
  count p (e1 ++ e2) = (count p e1 + count p e2)%nat.
Proof. unfold count. rewrite List.filter_app, length_app. reflexivity. Qed.

Lemma count_none (p : event -> bool) (evs : list event) :
  Forall (fun e => p e = false) evs -> count p evs = 0%nat.
Proof.
  unfold count. induction 1 as [|e evs He _ IH]; cbn; [reflexivity|].
  rewrite He. exact IH.
Qed.

(** The loop as a whole: the banners printed, the only possible failure, and
    where a returned path comes from. *)
Lemma attempts_inv (g : graph) (start_node : Z) (start_lat start_lon : R)
    (radius_km min_dist_m max_dist_m : R) (max_attempts : Z) (n i : nat)
    (w w' : world rng) (r : result (option (list Z))) :
  attempts random nearest_nodes shortest_path g start_node start_lat start_lon
    radius_km min_dist_m max_dist_m max_attempts i n w = (r, w') ->
  (exists evs, w_trace w' = w_trace w ++ evs
               /\ (count is_attempt evs <= n)%nat)
  /\ (forall e, r = Raise e -> e = ValueError)
  /\ (forall p, r = Ok (Some p) ->
      loop_found shortest_path g start_node min_dist_m max_dist_m p).
Proof.
  revert i w. induction n as [|n IH]; intros i w.
  - cbn. unfold bind, emit, ret. intros [= <- <-].
    split; [|split; discriminate].
    exists [EvPrintGiveUp]. split; [reflexivity|]. cbn. lia.
  - cbn [attempts]. unfold bind.
    destruct (attempt _ _ _ _ _ _ _ _ _ _ _ _ w) as [ra w1] eqn:Ha.
    apply attempt_inv in Ha as ((e1 & Ht1 & Hn1) & Hraise & Hfound).
    assert (Hc1 : count is_attempt
              (EvPrintAttempt (Z.of_nat i + 1) max_attempts :: e1) = 1%nat).
    { change (EvPrintAttempt (Z.of_nat i + 1) max_attempts :: e1)
        with ([EvPrintAttempt (Z.of_nat i + 1) max_attempts] ++ e1).
      rewrite count_app, (count_none _ e1 Hn1). reflexivity. }
    destruct ra as [[p|]|e].
    + unfold ret. intros [= <- <-]. split; [|split; [discriminate|]].
      * eexists. split; [exact Ht1|]. rewrite Hc1. lia.
      * intros p' [= <-]. apply Hfound. reflexivity.
    + intros Hrest. apply IH in Hrest as ((e2 & Ht2 & Hn2) & Hr2 & Hf2).
      split; [|split; assumption].
      exists ((EvPrintAttempt (Z.of_nat i + 1) max_attempts :: e1) ++ e2).
      split.
      * rewrite Ht2, Ht1, <- app_assoc. reflexivity.
      * rewrite count_app, Hc1. lia.
    + intros [= <- <-]. split; [|split; [|discriminate]].
      * eexists. split; [exact Ht1|]. rewrite Hc1. lia.
      * intros e' [= <-]. apply Hraise. reflexivity.
Qed.

Lemma walk_inv (g : graph) (start_node : Z) (total_distance_km tolerance : R)
    (max_attempts : Z) (w w' : world rng) (r : result (option (list Z))) :
  generate_walk_in_circle random nearest_nodes shortest_path g start_node
    total_distance_km tolerance max_attempts w = (r, w') ->
  (exists evs, w_trace w' = w_trace w ++ evs
               /\ (count is_attempt evs <= Z.to_nat max_attempts)%nat)
  /\ (forall e, r = Raise e ->
      e = ValueError
      \/ (e = KeyError /\ w' = w
          /\ (node_attr g start_node "y" = Raise KeyError
              \/ node_attr g start_node "x" = Raise KeyError)))
  /\ (forall p, r = Ok (Some p) ->
      loop_found shortest_path g start_node
        (total_distance_km * (1 - tolerance) * 1000)
        (total_distance_km * (1 + tolerance) * 1000) p).
Proof.
  assert (Hna : forall key e, node_attr g start_node key = Raise e ->
                e = KeyError).
  { intros key e. unfold node_attr.
    destruct (getitem (nodes g) start_node) as [d|e'] eqn:E; cbn.
    - apply getitem_raises.
    - intros [= <-]. eapply getitem_raises, E. }
  unfold generate_walk_in_circle, bind, lift.
  destruct (node_attr g start_node "y") as [lat|e1] eqn:Ey.
  2:{ intros [= <- <-]. apply Hna in Ey as ->.
      split; [exists []; rewrite app_nil_r; cbn; split; [reflexivity|lia]|].
      split; [|discriminate]. intros e [= <-]. right. auto. }
  destruct (node_attr g start_node "x") as [lon|e2] eqn:Ex.
  2:{ intros [= <- <-]. apply Hna in Ex as ->.
      split; [exists []; rewrite app_nil_r; cbn; split; [reflexivity|lia]|].
      split; [|discriminate]. intros e [= <-]. right. auto. }
  intros H. apply attempts_inv in H as (Ht & Hr & Hf).
  split; [exact Ht|]. split; [|exact Hf].
  intros e He. left. apply Hr, He.
Qed.

End WalkSteps.

(** ** Paths and their lengths *)

Section PathFacts.

Lemma but_last_head (s b : Z) (p : list Z) :
  head p = Some s -> last p = Some b -> b <> s -> head (but_last p) = Some s.
Proof.
  destruct p as [|x [|y q]]; cbn; try congruence.
Qed.

(** The concatenated loop starts and ends where its outer legs do. *)
Lemma full_path_ends (s b : Z) (path_ab path_bc path_ca : list Z) :
  head path_ab = Some s -> last path_ab = Some b -> b <> s ->
  last path_ca = Some s ->
  head (but_last path_ab ++ but_last path_bc ++ path_ca) = Some s
  /\ last (but_last path_ab ++ but_last path_bc ++ path_ca) = Some s.
Proof.
  intros Hh Hl Hne Hca. split.
  - rewrite head_app, (but_last_head s b) by assumption. reflexivity.
  - rewrite !last_app, Hca. reflexivity.
Qed.

Lemma edge_length_ok (g : graph) (uv : Z * Z) (x : R) :
  edge_length g uv = Ok x ->
  exists d, edges g !! (uv.1, uv.2, 0%Z) = Some d /\ d !! "length" = Some x.
Proof.
  unfold edge_length, getitem.
  destruct (edges g !! _) as [d|]; cbn; [|discriminate].
  destruct (d !! "length") as [y|] eqn:E; [|discriminate].
  intros [= <-]. eauto.
Qed.

Lemma sum_lengths_ok (g : graph) (pairs : list (Z * Z)) (acc total : R) :
  sum_lengths g acc pairs = Ok total ->
  forall uv, uv ∈ pairs ->
    exists d x, edges g !! (uv.1, uv.2, 0%Z) = Some d /\ d !! "length" = Some x.
Proof.
  revert acc. induction pairs as [|p rest IH]; intros acc H uv Hin.
  - apply elem_of_nil in Hin. contradiction.
  - cbn in H. destruct (edge_length g p) as [x|e] eqn:E; cbn in H;
      [|discriminate].
    apply elem_of_cons in Hin as [->|Hin].
    + apply edge_length_ok in E as (d & ? & ?). eauto.
    + eapply IH; eassumption.
Qed.

Lemma sum_lengths_missing (g : graph) (pairs : list (Z * Z)) (acc : R)
    (uv : Z * Z) :
  uv ∈ pairs ->
  edges g !! (uv.1, uv.2, 0%Z) ≫= (.!! "length") = None ->
  sum_lengths g acc pairs = Raise KeyError.
Proof.
  intros Hin Hmiss.
  destruct (sum_lengths g acc pairs) as [total|e] eqn:E.
  - destruct (sum_lengths_ok _ _ _ _ E uv Hin) as (d & x & Hd & Hx).
    rewrite Hd in Hmiss. cbn in Hmiss. congruence.
  - apply sum_lengths_raises in E. congruence.
Qed.

Lemma degenerate_false (s b c : Z) :
  degenerate s b c = false -> b <> s /\ c <> s /\ b <> c.
Proof.
  unfold degenerate. rewrite !orb_false_iff, !bool_decide_eq_false. tauto.
Qed.

Lemma degenerate_true (s b c : Z) :
  b = s \/ c = s \/ b = c -> degenerate s b c = true.
Proof.
  unfold degenerate. rewrite !orb_true_iff, !bool_decide_eq_true. tauto.
Qed.

End PathFacts.

(** ** Claims about the loop builder *)

Section WalkClaims.

Variable rng : Type.
Variable random : rng -> R * rng.
Variable nearest_nodes : graph -> R -> R -> Z.
Variable shortest_path : graph -> Z -> Z -> option (list Z).

Abbreviation walk :=
  (generate_walk_in_circle random nearest_nodes shortest_path).
Abbreviation sample := (get_random_point_in_circle random).
Abbreviation one_attempt := (attempt random nearest_nodes shortest_path).
Abbreviation loop := (attempts random nearest_nodes shortest_path).

(** C1. A returned path starts and ends at the start node, and its length,
    recomputed edge by edge, is within the tolerance band, in metres. The
    oracle is taken to answer with a path from its source to its target. *)
Theorem returned_loop_closed_and_in_band
    (oracle_ends : forall g s t p, shortest_path g s t = Some p ->
                   head p = Some s /\ last p = Some t)
    (g : graph) (start_node : Z) (target_km tolerance : R) (max_attempts : Z)
    (w w' : world rng) (path : list Z) :
  walk g start_node target_km tolerance max_attempts w = (Ok (Some path), w') ->
  head path = Some start_node
  /\ last path = Some start_node
  /\ exists total : R,
      path_length g path = Ok total
      /\ target_km * (1 - tolerance) * 1000 <= total
         <= target_km * (1 + tolerance) * 1000.
Proof.
  intros H. apply walk_inv in H as (_ & _ & Hf).
  destruct (Hf path eq_refl)
    as (nb & nc & pab & pbc & pca & len & Hd & Hab & Hbc & Hca & -> & Hl & Hb).
  apply degenerate_false in Hd as (Hnb & Hnc & Hbc').
  apply oracle_ends in Hab as [Hab1 Hab2].
  apply oracle_ends in Hca as [Hca1 Hca2].
  destruct (full_path_ends start_node nb pab pbc pca) as [Hh Hla];
    try assumption.
  split; [exact Hh|]. split; [exact Hla|]. exists len. split; assumption.
Qed.

(** C4. When a sampled way-point resolves to the start node, or both resolve
    to the same node, the attempt ends at once, the next one starts, and the
    shortest-path oracle has not been called in between. *)
Theorem degenerate_sample_skips_oracle
    (g : graph) (start_node : Z) (start_lat start_lon : R)
    (radius_km min_dist_m max_dist_m : R) (max_attempts : Z) (i n : nat)
    (w w1 w2 : world rng) (b c : R * R) :
  sample start_lat start_lon radius_km
    (extend w [EvPrintAttempt (Z.of_nat i + 1) max_attempts]) = (Ok b, w1) ->
  sample start_lat start_lon radius_km w1 = (Ok c, w2) ->
  nearest_nodes g b.2 b.1 = start_node
  \/ nearest_nodes g c.2 c.1 = start_node
  \/ nearest_nodes g b.2 b.1 = nearest_nodes g c.2 c.1 ->
  exists (w' : world rng) (evs : list event),
    one_attempt g start_node start_lat start_lon radius_km
      min_dist_m max_dist_m max_attempts i w = (Ok None, w')
    /\ w_trace w' = w_trace w ++ evs
    /\ count is_shortest_path evs = 0%nat
    /\ loop g start_node start_lat start_lon radius_km
         min_dist_m max_dist_m max_attempts i (S n) w
       = loop g start_node start_lat start_lon radius_km
           min_dist_m max_dist_m max_attempts (S i) n w'.
Proof.
  intros Hb Hc Hdeg.
  pose proof (attempt_sampled rng random nearest_nodes shortest_path g
                start_node start_lat start_lon radius_km min_dist_m max_dist_m
                max_attempts i w w1 w2 b c Hb Hc) as Ha.
  cbv zeta in Ha. rewrite (degenerate_true _ _ _ Hdeg) in Ha.
  apply sampler_inv in Hb as [(e1 & Ht1 & He1) _].
  apply sampler_inv in Hc as [(e2 & Ht2 & He2) _].
  eexists _, _. split; [exact Ha|]. split; [|split].
  - cbn [extend w_trace]. rewrite Ht2, Ht1. cbn [extend w_trace].
    rewrite <- !app_assoc. reflexivity.
  - rewrite !count_app.
    rewrite (count_none _ e1), (count_none _ e2); [reflexivity| |].
    + eapply Forall_impl; [exact He2|]. intros [] E; cbn in *; congruence.
    + eapply Forall_impl; [exact He1|]. intros [] E; cbn in *; congruence.
  - apply attempts_continue. exact Ha.
Qed.

(** C5. A shortest-path query that finds no path ends the attempt it is in,
    and the next attempt starts; the caller never sees [NetworkXNoPath]. *)
Theorem no_path_abandons_attempt_only :
  (forall (g : graph) (start_node : Z) (start_lat start_lon : R)
      (radius_km min_dist_m max_dist_m : R) (max_attempts : Z) (i n : nat)
      (w w1 w2 : world rng) (b c : R * R),
    sample start_lat start_lon radius_km
      (extend w [EvPrintAttempt (Z.of_nat i + 1) max_attempts]) = (Ok b, w1) ->
    sample start_lat start_lon radius_km w1 = (Ok c, w2) ->
    let node_b := nearest_nodes g b.2 b.1 in
    let node_c := nearest_nodes g c.2 c.1 in
    degenerate start_node node_b node_c = false ->
    shortest_path g start_node node_b = None
    \/ shortest_path g node_b node_c = None
    \/ shortest_path g node_c start_node = None ->
    exists w' : world rng,
      one_attempt g start_node start_lat start_lon radius_km
        min_dist_m max_dist_m max_attempts i w = (Ok None, w')
      /\ loop g start_node start_lat start_lon radius_km
           min_dist_m max_dist_m max_attempts i (S n) w
         = loop g start_node start_lat start_lon radius_km
             min_dist_m max_dist_m max_attempts (S i) n w')
  /\ (forall (g : graph) (start_node : Z) (target_km tolerance : R)
        (max_attempts : Z) (w : world rng),
      (walk g start_node target_km tolerance max_attempts w).1
      <> Raise NetworkXNoPath).
Proof.
  split.
  - intros g start_node start_lat start_lon radius_km min_dist_m max_dist_m
      max_attempts i n w w1 w2 b c Hb Hc node_b node_c Hd Hnone.
    pose proof (attempt_sampled rng random nearest_nodes shortest_path g
                  start_node start_lat start_lon radius_km min_dist_m
                  max_dist_m max_attempts i w w1 w2 b c Hb Hc) as Ha.
    cbv zeta in Ha. fold node_b node_c in Ha.
    rewrite Hd, try_block_run in Ha.
    assert (exists w', one_attempt g start_node start_lat start_lon radius_km
              min_dist_m max_dist_m max_attempts i w = (Ok None, w'))
      as [w' Hw'].
    { rewrite Ha.
      destruct (shortest_path g start_node node_b); [|eauto].
      destruct (shortest_path g node_b node_c); [|eauto].
      destruct (shortest_path g node_c start_node); [|eauto].
      destruct Hnone as [|[|]]; discriminate. }
    exists w'. split; [exact Hw'|]. apply attempts_continue. exact Hw'.
  - intros g start_node target_km tolerance max_attempts w.
    destruct (walk g start_node target_km tolerance max_attempts w)
      as [r w'] eqn:E.
    apply walk_inv in E as (_ & Hr & _). cbn [fst]. intros ->.
    destruct (Hr _ eq_refl) as [|[? _]]; discriminate.
Qed.

(** C10. Every step of a returned path is an edge with key 0 that carries a
    length; an attempt whose path has a step without one ends like an attempt
    without a path, and the caller never sees the [KeyError] of the length
    computation. *)
Theorem missing_edge_discards_attempt :
  (forall (g : graph) (start_node : Z) (target_km tolerance : R)
      (max_attempts : Z) (w w' : world rng) (path : list Z),
    walk g start_node target_km tolerance max_attempts w
      = (Ok (Some path), w') ->
    forall u v : Z, (u, v) ∈ zip (but_last path) (but_first path) ->
      exists (d : gmap string R) (x : R),
        edges g !! (u, v, 0%Z) = Some d /\ d !! "length" = Some x)
  /\ (forall (g : graph) (start_node : Z) (start_lat start_lon : R)
        (radius_km min_dist_m max_dist_m : R) (max_attempts : Z) (i n : nat)
        (w w1 w2 : world rng) (b c : R * R)
        (path_ab path_bc path_ca : list Z) (u v : Z),
      sample start_lat start_lon radius_km
        (extend w [EvPrintAttempt (Z.of_nat i + 1) max_attempts])
        = (Ok b, w1) ->
      sample start_lat start_lon radius_km w1 = (Ok c, w2) ->
      let node_b := nearest_nodes g b.2 b.1 in
      let node_c := nearest_nodes g c.2 c.1 in
      degenerate start_node node_b node_c = false ->
      shortest_path g start_node node_b = Some path_ab ->
      shortest_path g node_b node_c = Some path_bc ->
      shortest_path g node_c start_node = Some path_ca ->
      let full_path := but_last path_ab ++ but_last path_bc ++ path_ca in
      (u, v) ∈ zip (but_last full_path) (but_first full_path) ->
      edges g !! (u, v, 0%Z) ≫= (.!! "length") = None ->
      exists w' : world rng,
        one_attempt g start_node start_lat start_lon radius_km
          min_dist_m max_dist_m max_attempts i w = (Ok None, w')
        /\ loop g start_node start_lat start_lon radius_km
             min_dist_m max_dist_m max_attempts i (S n) w
           = loop g start_node start_lat start_lon radius_km
               min_dist_m max_dist_m max_attempts (S i) n w')
  /\ (forall (g : graph) (start_node : Z) (target_km tolerance : R)
        (max_attempts : Z) (w : world rng) (lat lon : R),
      node_attr g start_node "y" = Ok lat ->
      node_attr g start_node "x" = Ok lon ->
      (walk g start_node target_km tolerance max_attempts w).1
      <> Raise KeyError).
Proof.
  split; [|split].
  - intros g start_node target_km tolerance max_attempts w w' path H u v Hin.
    apply walk_inv in H as (_ & _ & Hf).
    destruct (Hf path eq_refl)
      as (nb & nc & pab & pbc & pca & len & _ & _ & _ & _ & _ & Hl & _).
    exact (sum_lengths_ok _ _ _ _ Hl (u, v) Hin).
  - intros g start_node start_lat start_lon radius_km min_dist_m max_dist_m
      max_attempts i n w w1 w2 b c path_ab path_bc path_ca u v Hb Hc
      node_b node_c Hd Hab Hbc Hca full_path Hin Hmiss.
    pose proof (attempt_sampled rng random nearest_nodes shortest_path g
                  start_node start_lat start_lon radius_km min_dist_m
                  max_dist_m max_attempts i w w1 w2 b c Hb Hc) as Ha.
    cbv zeta in Ha. fold node_b node_c in Ha.
    rewrite Hd, try_block_run, Hab, Hbc, Hca in Ha. cbv zeta in Ha.
    fold full_path in Ha. unfold path_length in Ha.
    rewrite (sum_lengths_missing g _ 0 (u, v) Hin Hmiss) in Ha.
    eexists. split; [exact Ha|]. apply attempts_continue. exact Ha.
  - intros g start_node target_km tolerance max_attempts w lat lon Hy Hx.
    destruct (walk g start_node target_km tolerance max_attempts w)
      as [r w'] eqn:E.
    apply walk_inv in E as (_ & Hr & _). cbn [fst]. intros ->.
    destruct (Hr _ eq_refl) as [|(_ & _ & [Hk|Hk])]; congruence.
Qed.

End WalkClaims.

(** ** The search as a whole *)

Section SearchClaims.

Variable rng : Type.
Variable random : rng -> R * rng.
Variable nearest_nodes : graph -> R -> R -> Z.
Variable shortest_path : graph -> Z -> Z -> option (list Z).

Abbreviation walk :=
  (generate_walk_in_circle random nearest_nodes shortest_path).
Abbreviation sample := (get_random_point_in_circle random).
Abbreviation one_attempt := (attempt random nearest_nodes shortest_path).
Abbreviation loop := (attempts random nearest_nodes shortest_path).
Abbreviation idle := (unsuccessful random nearest_nodes shortest_path).

(** The sampler starts with a draw, whatever becomes of it. *)
Lemma sampler_first_draw (lat lon radius_km : R) (w w' : world rng)
    (r : result (R * R)) :
  sample lat lon radius_km w = (r, w') ->
  exists evs : list event, w_trace w' = w_trace w ++ EvRandom :: evs.
Proof.
  unfold get_random_point_in_circle, bind, random_uniform, lift, ret,
    PyMath.sqrt, PyMath.asin.
  destruct (random (w_rng w)) as [u g1]. cbn [w_rng w_trace].
  destruct (Rlt_dec (0 + (1 - 0) * u) 0).
  { intros [= <- <-]. exists []. reflexivity. }
  cbn [w_rng w_trace]. destruct (random g1) as [v g2].
  repeat match goal with
  | |- context [if ?c then _ else _] => destruct c
  end; intros [= <- <-]; exists [EvRandom]; cbn [w_trace];
  rewrite <- app_assoc; reflexivity.
Qed.

(** Whatever becomes of it, an attempt has printed its banner and drawn a
    random number first. *)
Lemma attempt_starts_sampling (g : graph) (start_node : Z)
    (start_lat start_lon : R) (radius_km min_dist_m max_dist_m : R)
    (max_attempts : Z) (i : nat) (w w' : world rng)
    (r : result (option (list Z))) :
  one_attempt g start_node start_lat start_lon radius_km
    min_dist_m max_dist_m max_attempts i w = (r, w') ->
  exists evs : list event,
    w_trace w' = w_trace w
      ++ EvPrintAttempt (Z.of_nat i + 1) max_attempts :: EvRandom :: evs.
Proof.
  unfold attempt, bind, emit.
  destruct (get_random_point_in_circle _ _ _ _ (extend w _)) as [rb w1] eqn:Hb.
  apply sampler_first_draw in Hb as [e1 Ht1].
  cbn [extend w_trace] in Ht1. rewrite <- app_assoc in Ht1.
  destruct rb as [b|eb]; [|intros [= <- <-]; exists e1; exact Ht1].
  destruct (get_random_point_in_circle _ _ _ _ w1) as [rc w2] eqn:Hc.
  apply sampler_inv in Hc as [(e2 & Ht2 & _) _].
  destruct rc as [c|ec].
  2:{ intros [= <- <-]. exists (e1 ++ e2). rewrite Ht2, Ht1.
      rewrite <- app_assoc. reflexivity. }
  unfold call_nearest_nodes, bind, emit, ret. rewrite extend_extend.
  destruct (degenerate _ _ _).
  - intros [= <- <-]. cbn [extend w_trace]. rewrite Ht2, Ht1.
    rewrite <- !app_assoc. eexists. reflexivity.
  - intros Ht. apply try_block_inv in Ht as (o & evs & _ & -> & _).
    cbn [extend w_trace]. rewrite Ht2, Ht1.
    rewrite <- !app_assoc. eexists. reflexivity.
Qed.

(** What the loop has gone through when it returns. *)
Lemma attempts_returned (g : graph) (start_node : Z) (start_lat start_lon : R)
    (radius_km min_dist_m max_dist_m : R) (max_attempts : Z) (n i : nat)
    (w w' : world rng) (o : option (list Z)) :
  loop g start_node start_lat start_lon radius_km
    min_dist_m max_dist_m max_attempts i n w = (Ok o, w') ->
  match o with
  | None =>
      exists wn : world rng,
        idle g start_node start_lat start_lon radius_km
          min_dist_m max_dist_m max_attempts i n w wn
        /\ w' = extend wn [EvPrintGiveUp]
  | Some p =>
      exists (k : nat) (wk : world rng),
        (k < n)%nat
        /\ idle g start_node start_lat start_lon radius_km
             min_dist_m max_dist_m max_attempts i k w wk
        /\ one_attempt g start_node start_lat start_lon radius_km
             min_dist_m max_dist_m max_attempts (i + k) wk
           = (Ok (Some p), w')
  end.
Proof.
  revert i w. induction n as [|n IH]; intros i w.
  - cbn. unfold bind, emit, ret. intros [= <- <-].
    exists w. split; [constructor|reflexivity].
  - cbn [attempts]. unfold bind.
    destruct (attempt _ _ _ _ _ _ _ _ _ _ _ _ w) as [[[p|]|e] w1] eqn:Ha;
      [| |discriminate].
    + unfold ret. intros [= <- <-]. exists 0%nat, w.
      split; [lia|]. split; [constructor|]. rewrite Nat.add_0_r. exact Ha.
    + intros Hrest. apply IH in Hrest. destruct o as [p|].
      * destruct Hrest as (k & wk & Hk & Hidle & Hp).
        exists (S k), wk. split; [lia|]. split.
        -- econstructor; eassumption.
        -- rewrite <- Nat.add_succ_comm. exact Hp.
      * destruct Hrest as (wn & Hidle & ->).
        exists wn. split; [|reflexivity]. econstructor; eassumption.
Qed.

(** After [n] attempts that fall through the loop gives up. *)
Lemma attempts_give_up (g : graph) (start_node : Z) (start_lat start_lon : R)
    (radius_km min_dist_m max_dist_m : R) (max_attempts : Z) (n i : nat)
    (w wn : world rng) :
  idle g start_node start_lat start_lon radius_km
    min_dist_m max_dist_m max_attempts i n w wn ->
  loop g start_node start_lat start_lon radius_km
    min_dist_m max_dist_m max_attempts i n w
  = (Ok None, extend wn [EvPrintGiveUp]).
Proof.
  induction 1 as [i w|i k w w1 w2 Ha _ IH]; [reflexivity|].
  rewrite (attempts_continue _ _ _ _ _ _ _ _ _ _ _ _ _ _ _ _ Ha). exact IH.
Qed.

(** The loop stops at the first attempt that returns a path. *)
Lemma attempts_first_fit (g : graph) (start_node : Z) (start_lat start_lon : R)
    (radius_km min_dist_m max_dist_m : R) (max_attempts : Z) (n i k : nat)
    (w wk w' : world rng) (p : list Z) :
  idle g start_node start_lat start_lon radius_km
    min_dist_m max_dist_m max_attempts i k w wk ->
  (k < n)%nat ->
  one_attempt g start_node start_lat start_lon radius_km
    min_dist_m max_dist_m max_attempts (i + k) wk = (Ok (Some p), w') ->
  loop g start_node start_lat start_lon radius_km
    min_dist_m max_dist_m max_attempts i n w = (Ok (Some p), w').
Proof.
  intros Hidle. revert n.
  induction Hidle as [i w|i k w w1 w2 Ha _ IH]; intros n Hk Hp.
  - destruct n as [|n]; [lia|]. rewrite Nat.add_0_r in Hp.
    apply attempts_stop. exact Hp.
  - destruct n as [|n]; [lia|].
    rewrite (attempts_continue _ _ _ _ _ _ _ _ _ _ _ _ _ _ _ _ Ha).
    apply IH; [lia|]. rewrite Nat.add_succ_comm. exact Hp.
Qed.

(** What an attempt that has its two way-points, its three legs and the
    length of the loop does with the band. *)
Lemma attempt_verdict (g : graph) (start_node : Z) (start_lat start_lon : R)
    (radius_km min_dist_m max_dist_m : R) (max_attempts : Z) (i : nat)
    (w w1 w2 : world rng) (b c : R * R)
    (path_ab path_bc path_ca : list Z) (len : R) :
  sample start_lat start_lon radius_km
    (extend w [EvPrintAttempt (Z.of_nat i + 1) max_attempts]) = (Ok b, w1) ->
  sample start_lat start_lon radius_km w1 = (Ok c, w2) ->
  let node_b := nearest_nodes g b.2 b.1 in
  let node_c := nearest_nodes g c.2 c.1 in
  degenerate start_node node_b node_c = false ->
  shortest_path g start_node node_b = Some path_ab ->
  shortest_path g node_b node_c = Some path_bc ->
  shortest_path g node_c start_node = Some path_ca ->
  let full_path := but_last path_ab ++ but_last path_bc ++ path_ca in
  path_length g full_path = Ok len ->
  let asked := [EvNearestNodes b.2 b.1; EvNearestNodes c.2 c.1;
                EvShortestPath start_node node_b;
                EvShortestPath node_b node_c;
                EvShortestPath node_c start_node] in
  (min_dist_m <= len <= max_dist_m ->
   one_attempt g start_node start_lat start_lon radius_km
     min_dist_m max_dist_m max_attempts i w
   = (Ok (Some full_path), extend w2 (asked ++ [EvPrintSuccess len])))
  /\ (~ min_dist_m <= len <= max_dist_m ->
      one_attempt g start_node start_lat start_lon radius_km
        min_dist_m max_dist_m max_attempts i w
      = (Ok None, extend w2 asked)).
Proof.
  intros Hb Hc node_b node_c Hd Hab Hbc Hca full_path Hlen asked.
  pose proof (attempt_sampled rng random nearest_nodes shortest_path g
                start_node start_lat start_lon radius_km min_dist_m max_dist_m
                max_attempts i w w1 w2 b c Hb Hc) as Ha.
  cbv zeta in Ha. fold node_b node_c in Ha.
  rewrite Hd, try_block_run, Hab, Hbc, Hca in Ha. cbv zeta in Ha.
  fold full_path in Ha. rewrite Hlen in Ha. rewrite !extend_extend in Ha.
  split; intros Hband; rewrite Ha.
  - destruct (Rle_dec min_dist_m len); [|lra].
    destruct (Rle_dec len max_dist_m); [|lra]. reflexivity.
  - destruct (Rle_dec min_dist_m len); [|reflexivity].
    destruct (Rle_dec len max_dist_m); [lra|reflexivity].
Qed.

(** C2. The search makes at most [max_attempts] attempts. It returns [None]
    exactly after [max_attempts] attempts that all fell through, and a path
    exactly when some attempt returned it after none before did, the call
    ending with that attempt. An attempt that has its loop returns it when
    its length is in the band it was given and falls through otherwise; a
    returned path is always such a loop, and the only exception that can
    leave a call whose start node has coordinates is a [ValueError] out of
    the sampler. *)
Theorem bounded_first_fit_search (g : graph) (start_node : Z)
    (target_km tolerance : R) (max_attempts : Z) (w : world rng) :
  let radius_km := target_km / 4 in
  let min_dist_m := target_km * (1 - tolerance) * 1000 in
  let max_dist_m := target_km * (1 + tolerance) * 1000 in
  (exists evs : list event,
     w_trace (walk g start_node target_km tolerance max_attempts w).2
     = w_trace w ++ evs
     /\ (count is_attempt evs <= Z.to_nat max_attempts)%nat)
  /\ (forall lat lon : R,
        node_attr g start_node "y" = Ok lat ->
        node_attr g start_node "x" = Ok lon ->
        (forall w' : world rng,
           walk g start_node target_km tolerance max_attempts w = (Ok None, w')
           <-> exists wn : world rng,
                 idle g start_node lat lon radius_km min_dist_m max_dist_m
                   max_attempts 0 (Z.to_nat max_attempts) w wn
                 /\ w' = extend wn [EvPrintGiveUp])
        /\ (forall (p : list Z) (w' : world rng),
              walk g start_node target_km tolerance max_attempts w
              = (Ok (Some p), w')
              <-> exists (k : nat) (wk : world rng),
                    (k < Z.to_nat max_attempts)%nat
                    /\ idle g start_node lat lon radius_km min_dist_m
                         max_dist_m max_attempts 0 k w wk
                    /\ one_attempt g start_node lat lon radius_km
                         min_dist_m max_dist_m max_attempts k wk
                       = (Ok (Some p), w'))
        /\ (forall (p : list Z) (w' : world rng),
              walk g start_node target_km tolerance max_attempts w
              = (Ok (Some p), w') ->
              loop_found shortest_path g start_node min_dist_m max_dist_m p)
        /\ (forall (e : exn) (w' : world rng),
              walk g start_node target_km tolerance max_attempts w
              = (Raise e, w') -> e = ValueError))
  /\ (forall (lat lon radius min_m max_m : R) (i : nat)
        (wi w1 w2 : world rng) (b c : R * R)
        (path_ab path_bc path_ca : list Z) (len : R),
      sample lat lon radius
        (extend wi [EvPrintAttempt (Z.of_nat i + 1) max_attempts])
        = (Ok b, w1) ->
      sample lat lon radius w1 = (Ok c, w2) ->
      let node_b := nearest_nodes g b.2 b.1 in
      let node_c := nearest_nodes g c.2 c.1 in
      degenerate start_node node_b node_c = false ->
      shortest_path g start_node node_b = Some path_ab ->
      shortest_path g node_b node_c = Some path_bc ->
      shortest_path g node_c start_node = Some path_ca ->
      let full_path := but_last path_ab ++ but_last path_bc ++ path_ca in
      path_length g full_path = Ok len ->
      let asked := [EvNearestNodes b.2 b.1; EvNearestNodes c.2 c.1;
                    EvShortestPath start_node node_b;
                    EvShortestPath node_b node_c;
                    EvShortestPath node_c start_node] in
      (min_m <= len <= max_m ->
       one_attempt g start_node lat lon radius min_m max_m max_attempts i wi
       = (Ok (Some full_path), extend w2 (asked ++ [EvPrintSuccess len])))
      /\ (~ min_m <= len <= max_m ->
          one_attempt g start_node lat lon radius min_m max_m max_attempts
            i wi
          = (Ok None, extend w2 asked))).
Proof.
  intros radius_km min_dist_m max_dist_m. split; [|split].
  - destruct (walk g start_node target_km tolerance max_attempts w)
      as [r w'] eqn:E.
    apply walk_inv in E as (Ht & _). exact Ht.
  - intros lat lon Hy Hx.
    assert (E : walk g start_node target_km tolerance max_attempts w
                = loop g start_node lat lon radius_km min_dist_m max_dist_m
                    max_attempts 0 (Z.to_nat max_attempts) w).
    { unfold generate_walk_in_circle, bind, lift. rewrite Hy, Hx.
      reflexivity. }
    split; [|split; [|split]].
    + intros w'. rewrite E. split.
      * intros H. apply attempts_returned in H. exact H.
      * intros (wn & Hidle & ->). apply attempts_give_up. exact Hidle.
    + intros p w'. rewrite E. split.
      * intros H. apply attempts_returned in H. exact H.
      * intros (k & wk & Hk & Hidle & Hp).
        eapply attempts_first_fit; eassumption.
    + intros p w' H. apply walk_inv in H as (_ & _ & Hf).
      apply Hf. reflexivity.
    + intros e w' H. apply walk_inv in H as (_ & Hr & _).
      destruct (Hr e eq_refl) as [He|(_ & _ & [Hk|Hk])]; congruence.
  - intros lat lon radius min_m max_m i wi w1 w2 b c pab pbc pca len
      Hb Hc node_b node_c Hd Hab Hbc Hca full_path Hlen asked.
    exact (attempt_verdict g start_node lat lon radius min_m max_m
             max_attempts i wi w1 w2 b c pab pbc pca len
             Hb Hc Hd Hab Hbc Hca Hlen).
Qed.

(** C3, as the program has it. No input is checked and no call is turned
    down for its inputs. When the start node has coordinates, a call that is
    allowed no attempt prints its closing message and returns [None], as
    after a search that failed, and a call that is allowed at least one
    starts its first attempt and draws a random number, whatever the target
    distance and the tolerance are. *)
Theorem inputs_are_not_validated (g : graph) (start_node : Z)
    (target_km tolerance : R) (max_attempts : Z) (w : world rng)
    (lat lon : R) :
  node_attr g start_node "y" = Ok lat ->
  node_attr g start_node "x" = Ok lon ->
  ((max_attempts <= 0)%Z ->
   walk g start_node target_km tolerance max_attempts w
   = (Ok None, extend w [EvPrintGiveUp]))
  /\ ((0 < max_attempts)%Z ->
      exists evs : list event,
        w_trace (walk g start_node target_km tolerance max_attempts w).2
        = w_trace w ++ EvPrintAttempt 1 max_attempts :: EvRandom :: evs).
Proof.
  intros Hy Hx. split.
  - intros Hle. unfold generate_walk_in_circle, bind, lift. rewrite Hy, Hx.
    replace (Z.to_nat max_attempts) with 0%nat by lia. reflexivity.
  - intros Hlt. unfold generate_walk_in_circle, bind, lift. rewrite Hy, Hx.
    destruct (Z.to_nat max_attempts) as [|n] eqn:En; [lia|].
    cbn [attempts]. unfold bind.
    destruct (attempt _ _ _ _ _ _ _ _ _ _ _ _ w) as [ra w1] eqn:Ha.
    apply attempt_starts_sampling in Ha as [e1 Ht1].
    change (Z.of_nat 0 + 1)%Z with 1%Z in Ht1.
    destruct ra as [[p|]|e]; cbn [snd]; [eauto| |eauto].
    match goal with |- context [attempts ?a ?b ?c ?d ?e ?f ?g' ?h ?i ?j ?k ?l ?m ?x] =>
      destruct (attempts a b c d e f g' h i j k l m x) as [r w'] eqn:E end.
    apply attempts_inv in E as ((e2 & Ht2 & _) & _).
    cbn [snd]. rewrite Ht2, Ht1. rewrite <- app_assoc. cbn.
    eexists. reflexivity.
Qed.

End SearchClaims.

(** ** The program on the small network *)

Section DemoRuns.

Lemma ring_paths_ends (g : graph) (s t : Z) (p : list Z) :
  Demo.ring_paths g s t = Some p -> head p = Some s /\ last p = Some t.
Proof.
  unfold Demo.ring_paths.
  repeat (destruct (decide _) as [[-> ->]|_];
          [intros [= <-]; split; reflexivity|]).
  discriminate.
Qed.

(** The first sample of the counting generator is the centre itself. *)
Lemma demo_sample_b :
  sample_point_in_disk 0 0 (4 / 4) 0 0 = (0, 0).
Proof. apply sample_no_offset; [lra|]. rewrite sqrt_0. ring. Qed.

(** Its second sample lies north of the centre. *)
Lemma demo_sample_c :
  0 < (sample_point_in_disk 0 0 (4 / 4) (1 / 4) 0).1.
Proof.
  unfold sample_point_in_disk. cbv zeta. cbn [fst].
  set (d := 4 / 4 * R_sqrt.sqrt (1 / 4) / 6371).
  assert (Hs0 : 0 < R_sqrt.sqrt (1 / 4)) by (apply sqrt_lt_R0; lra).
  assert (Hs1 : R_sqrt.sqrt (1 / 4) <= 1).
  { rewrite <- sqrt_1 at 2. apply sqrt_le_1; lra. }
  assert (Hd : 0 < d <= 1) by (unfold d; lra).
  pose proof PI2_1 as HP.
  replace (2 * PI * 0) with 0 by ring.
  replace (PyMath.radians 0) with 0 by (unfold PyMath.radians; ring).
  rewrite sin_0, cos_0.
  replace (0 * cos d + 1 * sin d * 1) with (sin d) by ring.
  rewrite asin_sin by lra.
  replace 0 with (PyMath.degrees 0) by (unfold PyMath.degrees; ring).
  apply degrees_lt. lra.
Qed.

Lemma demo_node_b (g : graph) :
  Demo.north_south g
    (sample_point_in_disk 0 0 (4 / 4) 0 0).2
    (sample_point_in_disk 0 0 (4 / 4) 0 0).1 = 2%Z.
Proof.
  rewrite demo_sample_b. unfold Demo.north_south. cbn [fst snd].
  destruct (Rlt_dec 0 0); [lra|reflexivity].
Qed.

Lemma demo_node_c (g : graph) :
  Demo.north_south g
    (sample_point_in_disk 0 0 (4 / 4) (1 / 4) 0).2
    (sample_point_in_disk 0 0 (4 / 4) (1 / 4) 0).1 = 3%Z.
Proof.
  unfold Demo.north_south. pose proof demo_sample_c.
  destruct (Rlt_dec 0 _); [reflexivity|lra].
Qed.

Lemma demo_draw_b (radius_km : R) (tr : list event) :
  get_random_point_in_circle Demo.tick 0 0 radius_km (World 0%nat tr)
  = (Ok (sample_point_in_disk 0 0 radius_km 0 0),
     World 2%nat (tr ++ [EvRandom; EvRandom])).
Proof.
  exact (sampler_run nat Demo.tick tick_range 0 0 radius_km (World 0%nat tr)).
Qed.

Lemma demo_draw_c (radius_km : R) (tr : list event) :
  get_random_point_in_circle Demo.tick 0 0 radius_km (World 2%nat tr)
  = (Ok (sample_point_in_disk 0 0 radius_km (1 / 4) 0),
     World 4%nat (tr ++ [EvRandom; EvRandom])).
Proof.
  exact (sampler_run nat Demo.tick tick_range 0 0 radius_km (World 2%nat tr)).
Qed.

Lemma demo_coordinates (key : string) :
  key = "y" \/ key = "x" -> node_attr Demo.triangle 1 key = Ok 0.
Proof. intros [->| ->]; reflexivity. Qed.

Lemma demo_path_length :
  path_length Demo.triangle [1; 2; 3; 1]%Z = Ok (0 + 1000 + 2000 + 1000).
Proof. reflexivity. Qed.

(** The first attempt on the triangle finds the loop 1, 2, 3, 1. *)
Lemma demo_attempt_found (max_attempts : Z) :
  exists w' : world nat,
    attempt Demo.tick Demo.north_south Demo.ring_paths Demo.triangle 1 0 0
      (4 / 4) (4 * (1 - 15 / 100) * 1000) (4 * (1 + 15 / 100) * 1000)
      max_attempts 0 Demo.w0
    = (Ok (Some [1; 2; 3; 1]%Z), w').
Proof.
  pose proof (demo_draw_b (4 / 4)
                ([] ++ [EvPrintAttempt (Z.of_nat 0 + 1) max_attempts])) as Hb.
  pose proof (demo_draw_c (4 / 4)
                (([] ++ [EvPrintAttempt (Z.of_nat 0 + 1) max_attempts])
                 ++ [EvRandom; EvRandom])) as Hc.
  rewrite (attempt_sampled nat Demo.tick Demo.north_south Demo.ring_paths
             Demo.triangle 1 0 0 (4 / 4) _ _ max_attempts 0 Demo.w0 _ _ _ _
             Hb Hc).
  cbv zeta. rewrite demo_node_b, demo_node_c.
  change (degenerate 1 2 3) with false. cbv iota.
  rewrite try_block_run.
  change (Demo.ring_paths Demo.triangle 1 2) with (Some [1; 2]%Z).
  change (Demo.ring_paths Demo.triangle 2 3) with (Some [2; 3]%Z).
  change (Demo.ring_paths Demo.triangle 3 1) with (Some [3; 1]%Z).
  cbv iota zeta.
  change (but_last [1; 2]%Z ++ but_last [2; 3]%Z ++ [3; 1]%Z)
    with [1; 2; 3; 1]%Z.
  rewrite demo_path_length.
  destruct (Rle_dec _ _) as [_|H]; [|exfalso; apply H; lra].
  destruct (Rle_dec _ _) as [_|H]; [|exfalso; apply H; lra].
  eexists. reflexivity.
Qed.

Lemma demo_walk_found :
  (generate_walk_in_circle Demo.tick Demo.north_south Demo.ring_paths
     Demo.triangle 1 4 (15 / 100) 50 Demo.w0).1
  = Ok (Some [1; 2; 3; 1]%Z).
Proof.
  unfold generate_walk_in_circle, bind, lift.
  rewrite !demo_coordinates by auto.
  destruct (demo_attempt_found 50) as [w' Hw'].
  change (Z.to_nat 50) with (S 49).
  rewrite (attempts_stop _ _ _ _ _ _ _ _ _ _ _ _ _ _ _ _ _ Hw').
  reflexivity.
Qed.

End DemoRuns.

(** ** The claims on the small network *)

Lemma returned_loop_closed_and_in_band_witness :
  head [1; 2; 3; 1]%Z = Some 1%Z
  /\ last [1; 2; 3; 1]%Z = Some 1%Z
  /\ exists total : R,
      path_length Demo.triangle [1; 2; 3; 1]%Z = Ok total
      /\ 4 * (1 - 15 / 100) * 1000 <= total <= 4 * (1 + 15 / 100) * 1000.
Proof.
  apply (returned_loop_closed_and_in_band nat Demo.tick Demo.north_south
           Demo.ring_paths ring_paths_ends Demo.triangle 1 4 (15 / 100) 50
           Demo.w0
           (generate_walk_in_circle Demo.tick Demo.north_south Demo.ring_paths
              Demo.triangle 1 4 (15 / 100) 50 Demo.w0).2).
  rewrite <- demo_walk_found. apply surjective_pairing.
Defined.

Lemma bounded_first_fit_search_witness :
  (exists evs : list event,
     w_trace (generate_walk_in_circle Demo.tick Demo.north_south
                Demo.ring_paths Demo.triangle 1 4 (15 / 100) 50 Demo.w0).2
     = w_trace Demo.w0 ++ evs
     /\ (count is_attempt evs <= 50)%nat)
  /\ (exists w' : world nat,
        generate_walk_in_circle Demo.tick Demo.north_south Demo.ring_paths
          Demo.triangle 1 4 (15 / 100) 50 Demo.w0
        = (Ok (Some [1; 2; 3; 1]%Z), w')
        /\ loop_found Demo.ring_paths Demo.triangle 1
             (4 * (1 - 15 / 100) * 1000) (4 * (1 + 15 / 100) * 1000)
             [1; 2; 3; 1]%Z)
  /\ (exists w' : world nat,
        attempt Demo.tick Demo.north_south Demo.ring_paths Demo.triangle
          1 0 0 (4 / 4) 3400 4600 50 0 Demo.w0
        = (Ok (Some [1; 2; 3; 1]%Z), w')
        /\ last (w_trace w') = Some (EvPrintSuccess (0 + 1000 + 2000 + 1000))).
Proof.
  destruct (bounded_first_fit_search nat Demo.tick Demo.north_south
              Demo.ring_paths Demo.triangle 1 4 (15 / 100) 50 Demo.w0)
    as (H1 & H2 & H3).
  destruct (H2 0 0 eq_refl eq_refl) as (_ & Hsome & Hfound & _).
  split; [exact H1|]. split.
  - destruct (demo_attempt_found 50) as [w' Hw'].
    assert (E : generate_walk_in_circle Demo.tick Demo.north_south
                  Demo.ring_paths Demo.triangle 1 4 (15 / 100) 50 Demo.w0
                = (Ok (Some [1; 2; 3; 1]%Z), w')).
    { apply Hsome. exists 0%nat, Demo.w0.
      split; [lia|]. split; [constructor|exact Hw']. }
    exists w'. split; [exact E|]. exact (Hfound _ _ E).
  - destruct (H3 0 0 (4 / 4) 3400 4600 0%nat Demo.w0 _ _ _ _
                [1; 2]%Z [2; 3]%Z [3; 1]%Z (0 + 1000 + 2000 + 1000)
                (demo_draw_b (4 / 4)
                   ([] ++ [EvPrintAttempt (Z.of_nat 0 + 1) 50]))
                (demo_draw_c (4 / 4)
                   (([] ++ [EvPrintAttempt (Z.of_nat 0 + 1) 50])
                    ++ [EvRandom; EvRandom]))) as [Hin _].
    + rewrite demo_node_b, demo_node_c. reflexivity.
    + rewrite demo_node_b. reflexivity.
    + rewrite demo_node_b, demo_node_c. reflexivity.
    + rewrite demo_node_c. reflexivity.
    + exact demo_path_length.
    + eexists. split; [apply Hin; lra|].
      cbn [extend w_trace]. rewrite !last_app. reflexivity.
Defined.

(** The call with a target of -4 km and one attempt, step by step. *)
Lemma demo_negative_target_run :
  generate_walk_in_circle Demo.tick Demo.always_start Demo.ring_paths
    Demo.triangle 1 (-4) (15 / 100) 1 Demo.w0
  = (Ok None,
     World 4%nat
       [EvPrintAttempt 1 1; EvRandom; EvRandom; EvRandom; EvRandom;
        EvNearestNodes (sample_point_in_disk 0 0 (-4 / 4) 0 0).2
                       (sample_point_in_disk 0 0 (-4 / 4) 0 0).1;
        EvNearestNodes (sample_point_in_disk 0 0 (-4 / 4) (1 / 4) 0).2
                       (sample_point_in_disk 0 0 (-4 / 4) (1 / 4) 0).1;
        EvPrintGiveUp]).
Proof.
  unfold generate_walk_in_circle, bind, lift.
  rewrite !demo_coordinates by auto.
  change (Z.to_nat 1) with 1%nat. cbn [attempts]. unfold bind.
  pose proof (demo_draw_b (-4 / 4)
                ([] ++ [EvPrintAttempt (Z.of_nat 0 + 1) 1])) as Hb.
  pose proof (demo_draw_c (-4 / 4)
                (([] ++ [EvPrintAttempt (Z.of_nat 0 + 1) 1])
                 ++ [EvRandom; EvRandom])) as Hc.
  rewrite (attempt_sampled nat Demo.tick Demo.always_start Demo.ring_paths
             Demo.triangle 1 0 0 (-4 / 4) _ _ 1 0 Demo.w0 _ _ _ _ Hb Hc).
  reflexivity.
Qed.

(** C3 as stated fails: a target of -4 km is not rejected; the call samples
    twice, resolves both points and returns [None] like any failed search. *)
Lemma nonpositive_target_is_not_rejected :
  -4 <= 0
  /\ (generate_walk_in_circle Demo.tick Demo.always_start Demo.ring_paths
        Demo.triangle 1 (-4) (15 / 100) 1 Demo.w0).1 = Ok None
  /\ count is_random
       (w_trace (generate_walk_in_circle Demo.tick Demo.always_start
                   Demo.ring_paths Demo.triangle 1 (-4) (15 / 100) 1
                   Demo.w0).2) = 4%nat
  /\ ~ fails_fast Demo.w0
         (generate_walk_in_circle Demo.tick Demo.always_start Demo.ring_paths
            Demo.triangle 1 (-4) (15 / 100) 1 Demo.w0).
Proof.
  rewrite demo_negative_target_run. split; [lra|].
  split; [reflexivity|]. split; [reflexivity|].
  intros [[e He] _]. discriminate.
Qed.

Lemma inputs_are_not_validated_witness :
  generate_walk_in_circle Demo.tick Demo.always_start Demo.ring_paths
    Demo.triangle 1 (-4) (15 / 100) 0 Demo.w0
  = (Ok None, extend Demo.w0 [EvPrintGiveUp])
  /\ exists evs : list event,
       w_trace (generate_walk_in_circle Demo.tick Demo.always_start
                  Demo.ring_paths Demo.triangle 1 (-4) (15 / 100) 1
                  Demo.w0).2
       = w_trace Demo.w0 ++ EvPrintAttempt 1 1 :: EvRandom :: evs.
Proof.
  destruct (inputs_are_not_validated nat Demo.tick Demo.always_start
              Demo.ring_paths Demo.triangle 1 (-4) (15 / 100) 0
              Demo.w0 0 0 eq_refl eq_refl) as [H0 _].
  destruct (inputs_are_not_validated nat Demo.tick Demo.always_start
              Demo.ring_paths Demo.triangle 1 (-4) (15 / 100) 1
              Demo.w0 0 0 eq_refl eq_refl) as [_ H1].
  split; [apply H0; lia|apply H1; lia].
Defined.

Lemma degenerate_sample_skips_oracle_witness :
  exists (w' : world nat) (evs : list event),
    attempt Demo.tick Demo.always_start Demo.ring_paths Demo.triangle 1 0 0
      (4 / 4) 3400 4600 50 0 Demo.w0 = (Ok None, w')
    /\ w_trace w' = w_trace Demo.w0 ++ evs
    /\ count is_shortest_path evs = 0%nat
    /\ attempts Demo.tick Demo.always_start Demo.ring_paths Demo.triangle
         1 0 0 (4 / 4) 3400 4600 50 0 (S 49) Demo.w0
       = attempts Demo.tick Demo.always_start Demo.ring_paths Demo.triangle
           1 0 0 (4 / 4) 3400 4600 50 1 49 w'.
Proof.
  apply (degenerate_sample_skips_oracle nat Demo.tick Demo.always_start
           Demo.ring_paths Demo.triangle 1 0 0 (4 / 4) 3400 4600 50 0 49
           Demo.w0 _ _ _ _
           (demo_draw_b (4 / 4) ([] ++ [EvPrintAttempt (Z.of_nat 0 + 1) 50]))
           (demo_draw_c (4 / 4)
              (([] ++ [EvPrintAttempt (Z.of_nat 0 + 1) 50])
               ++ [EvRandom; EvRandom]))).
  left. reflexivity.
Defined.

Lemma demo_not_degenerate (g : graph) :
  degenerate 1
    (Demo.north_south g (sample_point_in_disk 0 0 (4 / 4) 0 0).2
                        (sample_point_in_disk 0 0 (4 / 4) 0 0).1)
    (Demo.north_south g (sample_point_in_disk 0 0 (4 / 4) (1 / 4) 0).2
                        (sample_point_in_disk 0 0 (4 / 4) (1 / 4) 0).1)
  = false.
Proof. rewrite demo_node_b, demo_node_c. reflexivity. Qed.

Lemma no_path_abandons_attempt_only_witness :
  (exists w' : world nat,
     attempt Demo.tick Demo.north_south Demo.no_paths Demo.triangle 1 0 0
       (4 / 4) 3400 4600 50 0 Demo.w0 = (Ok None, w')
     /\ attempts Demo.tick Demo.north_south Demo.no_paths Demo.triangle
          1 0 0 (4 / 4) 3400 4600 50 0 (S 49) Demo.w0
        = attempts Demo.tick Demo.north_south Demo.no_paths Demo.triangle
            1 0 0 (4 / 4) 3400 4600 50 1 49 w')
  /\ (generate_walk_in_circle Demo.tick Demo.north_south Demo.no_paths
        Demo.triangle 1 4 (15 / 100) 50 Demo.w0).1 <> Raise NetworkXNoPath.
Proof.
  destruct (no_path_abandons_attempt_only nat Demo.tick Demo.north_south
              Demo.no_paths) as [H1 H2].
  split; [|apply H2].
  apply (H1 Demo.triangle 1%Z 0 0 (4 / 4) 3400 4600 50%Z 0%nat 49%nat
           Demo.w0 _ _ _ _
           (demo_draw_b (4 / 4) ([] ++ [EvPrintAttempt (Z.of_nat 0 + 1) 50]))
           (demo_draw_c (4 / 4)
              (([] ++ [EvPrintAttempt (Z.of_nat 0 + 1) 50])
               ++ [EvRandom; EvRandom]))).
  - apply demo_not_degenerate.
  - left. reflexivity.
Defined.

Lemma missing_edge_discards_attempt_witness :
  (forall u v : Z,
     (u, v) ∈ zip (but_last [1; 2; 3; 1]%Z) (but_first [1; 2; 3; 1]%Z) ->
     exists (d : gmap string R) (x : R),
       edges Demo.triangle !! (u, v, 0%Z) = Some d /\ d !! "length" = Some x)
  /\ (exists w' : world nat,
        attempt Demo.tick Demo.north_south Demo.ring_paths Demo.bare 1 0 0
          (4 / 4) 3400 4600 50 0 Demo.w0 = (Ok None, w')
        /\ attempts Demo.tick Demo.north_south Demo.ring_paths Demo.bare
             1 0 0 (4 / 4) 3400 4600 50 0 (S 49) Demo.w0
           = attempts Demo.tick Demo.north_south Demo.ring_paths Demo.bare
               1 0 0 (4 / 4) 3400 4600 50 1 49 w')
  /\ (generate_walk_in_circle Demo.tick Demo.north_south Demo.ring_paths
        Demo.bare 1 4 (15 / 100) 50 Demo.w0).1 <> Raise KeyError.
Proof.
  destruct (missing_edge_discards_attempt nat Demo.tick Demo.north_south
              Demo.ring_paths) as (H1 & H2 & H3).
  split; [|split].
  - apply (H1 Demo.triangle 1%Z 4 (15 / 100) 50%Z Demo.w0
             (generate_walk_in_circle Demo.tick Demo.north_south
                Demo.ring_paths Demo.triangle 1 4 (15 / 100) 50 Demo.w0).2).
    rewrite <- demo_walk_found. apply surjective_pairing.
  - apply (H2 Demo.bare 1%Z 0 0 (4 / 4) 3400 4600 50%Z 0%nat 49%nat
             Demo.w0 _ _ _ _ [1; 2]%Z [2; 3]%Z [3; 1]%Z 1%Z 2%Z
             (demo_draw_b (4 / 4)
                ([] ++ [EvPrintAttempt (Z.of_nat 0 + 1) 50]))
             (demo_draw_c (4 / 4)
                (([] ++ [EvPrintAttempt (Z.of_nat 0 + 1) 50])
                 ++ [EvRandom; EvRandom]))).
    + apply demo_not_degenerate.
    + rewrite demo_node_b. reflexivity.
    + rewrite demo_node_b, demo_node_c. reflexivity.
    + rewrite demo_node_c. reflexivity.
    + apply list_elem_of_here.
    + reflexivity.
  - apply (H3 Demo.bare 1%Z 4 (15 / 100) 50%Z Demo.w0 0 0); reflexivity.
Defined.

(** ** The way-point reduction *)

Section ReducerFacts.
Local Open Scope nat_scope.
Import Reducer.

Context {A : Type}.
Implicit Types l : list A.

Lemma take_every_id l : take_every 0 0 l = l.
Proof. induction l as [|x t IH]; cbn; [reflexivity|]. rewrite IH. reflexivity. Qed.

Lemma take_every_head gap l : head (take_every gap 0 l) = head l.
Proof. destruct l; reflexivity. Qed.

Lemma take_every_sublist gap skip l : take_every gap skip l `sublist_of` l.
Proof.
  revert skip. induction l as [|x t IH]; intros skip; cbn.
  - constructor.
  - destruct skip; [apply sublist_skip|apply sublist_cons]; apply IH.
Qed.

(** How many elements a stride keeps: the positions [skip + j * (gap + 1)]
    below the length. *)
Lemma take_every_count gap skip l :
  let c := length (take_every gap skip l) in
  length l <= skip + c * (gap + 1)
  /\ (0 < c -> skip + (c - 1) * (gap + 1) < length l).
Proof.
  revert skip. induction l as [|x t IH]; intros skip; cbn.
  - lia.
  - destruct skip as [|s]; cbn.
    + specialize (IH gap). cbn in IH. destruct IH as [IH1 IH2].
      split; [lia|]. intros _. rewrite Nat.sub_0_r.
      destruct (length (take_every gap gap t)) as [|c'] eqn:E; [lia|].
      assert (0 < S c') as Hc by lia. specialize (IH2 Hc).
      replace (S c' - 1) with c' in IH2 by lia. lia.
    + specialize (IH s). cbn in IH. destruct IH as [IH1 IH2].
      split; [lia|]. intros Hc. specialize (IH2 Hc). lia.
Qed.

(** A stride that lands on the last position keeps the last element. *)
Lemma take_every_last gap skip l (c : nat) :
  length l = S (skip + c * (gap + 1)) ->
  last (take_every gap skip l) = last l.
Proof.
  revert skip c. induction l as [|x t IH]; intros skip c Hlen; cbn in *.
  - lia.
  - destruct skip as [|s].
    + destruct c as [|c].
      * destruct t; [reflexivity|cbn in Hlen; lia].
      * rewrite !last_cons. rewrite (IH gap c) by lia. reflexivity.
    + rewrite (IH s c) by lia. rewrite last_cons.
      destruct (last t) eqn:E; [reflexivity|].
      apply last_None in E. subst t. cbn in Hlen. lia.
Qed.

Lemma take_every_nonempty gap l : l <> [] -> take_every gap 0 l <> [].
Proof. destruct l; [congruence|discriminate]. Qed.

End ReducerFacts.

Section ReducerRuns.
Local Open Scope Z_scope.
Import Reducer.

Implicit Types path : list Z.

Lemma reduce_short (k : Z) path :
  Z.of_nat (length path) <= k -> reduce_waypoints k path = Ok path.
Proof.
  intros H. unfold reduce_waypoints.
  destruct (decide (k < Z.of_nat (length path))); [lia|reflexivity].
Qed.

(** Above the bound the program takes a stride of [len // (k - 1)] and makes
    sure the last node is the path's last node. *)
Lemma reduce_long (k : Z) path :
  2 <= k -> k < Z.of_nat (length path) ->
  let url := take_every (Z.to_nat (Z.of_nat (length path) / (k - 1)) - 1) 0
               path in
  exists a b : Z,
    last url = Some a /\ last path = Some b
    /\ reduce_waypoints k path
       = Ok (if decide (a ≠ b) then url ++ [b] else url).
Proof.
  intros Hk Hlen url. unfold reduce_waypoints.
  destruct (decide (k < Z.of_nat (length path))); [|lia].
  unfold floordiv. destruct (decide (k - 1 = 0)); [lia|]. cbn.
  assert (Hq : 1 <= Z.of_nat (length path) / (k - 1)).
  { apply Z.div_le_lower_bound; lia. }
  unfold slice_step.
  destruct (decide (Z.of_nat (length path) / (k - 1) = 0)); [lia|].
  destruct (decide (0 < Z.of_nat (length path) / (k - 1))); [|lia].
  cbn. fold url.
  assert (Hne : path <> []) by (destruct path; [cbn in Hlen; lia|discriminate]).
  destruct (last url) as [a|] eqn:Ea.
  2:{ apply last_None in Ea. exfalso. revert Ea. apply take_every_nonempty.
      exact Hne. }
  destruct (last path) as [b|] eqn:Eb.
  2:{ apply last_None in Eb. contradiction. }
  exists a, b. unfold last_item. rewrite Ea, Eb. cbn.
  repeat split. destruct (decide (a ≠ b)); reflexivity.
Qed.

(** With a stride of one nothing is dropped. *)
Lemma reduce_stride_one (k : Z) path :
  2 <= k -> k < Z.of_nat (length path) ->
  Z.of_nat (length path) / (k - 1) = 1 ->
  reduce_waypoints k path = Ok path.
Proof.
  intros Hk Hlen Hq.
  destruct (reduce_long k path Hk Hlen) as (a & b & Ha & Hb & ->).
  rewrite Hq in *. change (Z.to_nat 1 - 1)%nat with 0%nat in *.
  rewrite take_every_id in *.
  destruct (decide (a ≠ b)); [congruence|reflexivity].
Qed.

(** The reduction never fails for a bound of at least 2, and what it returns
    is either within the bound or short enough for a stride of one. *)
Lemma reduce_waypoints_result (k : Z) path :
  2 <= k ->
  exists r : list Z,
    reduce_waypoints k path = Ok r
    /\ (Z.of_nat (length r) <= k
        \/ (k < Z.of_nat (length r) /\ Z.of_nat (length r) / (k - 1) = 1)).
Proof.
  intros Hk.
  destruct (decide (Z.of_nat (length path) <= k)) as [Hs|Hl].
  { exists path. split; [apply reduce_short; exact Hs|left; exact Hs]. }
  assert (Hlen : k < Z.of_nat (length path)) by lia.
  set (n := Z.of_nat (length path)) in *.
  set (d := k - 1).
  set (q := n / d).
  assert (Hd : 1 <= d) by (unfold d; lia).
  assert (Hq1 : 1 <= q) by (apply Z.div_le_lower_bound; unfold d; lia).
  pose proof (Z.div_mod n d ltac:(lia)) as Hdm.
  pose proof (Z.mod_pos_bound n d ltac:(lia)) as Hmod.
  fold q in Hdm.
  destruct (decide (q = 1)) as [Hq|Hq].
  { exists path. split; [apply reduce_stride_one; assumption|].
    right. split; assumption. }
  destruct (reduce_long k path Hk Hlen) as (a & b & Ha & Hb & Hr).
  cbv zeta in Ha, Hr. fold n d q in Ha, Hr.
  set (url := take_every (Z.to_nat q - 1) 0 path) in *.
  pose proof (take_every_count (Z.to_nat q - 1) 0 path) as [Hc1 Hc2].
  fold url in Hc1, Hc2.
  assert (Hc0 : (0 < length url)%nat).
  { destruct url; [discriminate|cbn; lia]. }
  specialize (Hc2 Hc0).
  replace (Z.to_nat q - 1 + 1)%nat with (Z.to_nat q) in Hc1, Hc2 by lia.
  set (c := Z.of_nat (length url)).
  assert (Hb1 : n <= c * q) by (unfold n, c; nia).
  assert (Hb2 : (c - 1) * q < n) by (unfold n, c; nia).
  assert (Hc : 1 <= c) by (unfold c; lia).
  eexists. split; [exact Hr|].
  destruct (decide (a ≠ b)) as [Hab|Hab].
  - (* the last node was appended *)
    assert (Hlr : Z.of_nat (length (url ++ [b])) = c + 1).
    { rewrite length_app. cbn. unfold c. lia. }
    rewrite Hlr.
    destruct (decide (c + 1 <= k)) as [Hs|Hbig]; [left; exact Hs|].
    right. split; [lia|]. fold d. symmetry.
    apply (Z.div_unique_pos _ _ 1 (c + 1 - d)); [|ring].
    split; [unfold d in *; lia|].
    destruct (decide (d = 1)) as [->|Hd1]; [nia|].
    destruct (decide (d = 2)) as [Hd2|Hd2]; [|nia].
    (* bound 3: three nodes are kept only when the stride ends on the last *)
    exfalso. assert (c = 3) as Hc3 by nia.
    assert (n = 2 * q + 1) as Hn by nia.
    apply Hab. assert (last url = last path) as E.
    { unfold url. apply (take_every_last _ _ _ 2).
      unfold n in Hn. lia. }
    congruence.
  - fold c.
    destruct (decide (c <= k)) as [Hs|Hbig]; [left; exact Hs|].
    right. split; [lia|]. fold d. symmetry.
    apply (Z.div_unique_pos _ _ 1 (c - d)); [|ring].
    split; [unfold d in *; lia|]. nia.
Qed.

Lemma reduce_waypoints_idempotent (k : Z) path :
  2 <= k ->
  exists r : list Z,
    reduce_waypoints k path = Ok r /\ reduce_waypoints k r = Ok r.
Proof.
  intros Hk.
  destruct (reduce_waypoints_result k path Hk) as (r & Hr & [Hs|[Hl Hq]]);
    exists r; (split; [exact Hr|]).
  - apply reduce_short. exact Hs.
  - apply reduce_stride_one; assumption.
Qed.

(** A stride over a list with one more element keeps the same elements, and
    perhaps the new one. *)
Lemma take_every_snoc (gap skip : nat) path (b : Z) :
  take_every gap skip (path ++ [b]) = take_every gap skip path
  \/ take_every gap skip (path ++ [b]) = take_every gap skip path ++ [b].
Proof.
  revert skip. induction path as [|x t IH]; intros skip; cbn.
  - destruct skip; [right|left]; reflexivity.
  - destruct skip as [|s].
    + destruct (IH gap) as [-> | ->]; [left|right]; reflexivity.
    + apply IH.
Qed.

(** What does hold of the result: it is a subsequence of the path with the
    same first and last node, and the path itself when that is short. *)
Lemma reduce_waypoints_shape (k : Z) path (r : list Z) :
  2 <= k -> reduce_waypoints k path = Ok r ->
  head r = head path /\ last r = last path /\ r `sublist_of` path
  /\ (Z.of_nat (length path) <= k -> r = path).
Proof.
  intros Hk Hr.
  destruct (decide (Z.of_nat (length path) <= k)) as [Hs|Hl].
  { rewrite reduce_short in Hr by exact Hs. injection Hr as <-.
    repeat split; reflexivity. }
  destruct (reduce_long k path Hk ltac:(lia)) as (a & b & Ha & Hb & Hr').
  cbv zeta in Ha, Hr'. rewrite Hr' in Hr. injection Hr as <-.
  set (gap := (Z.to_nat (Z.of_nat (length path) / (k - 1)) - 1)%nat) in *.
  split; [|split; [|split; [|lia]]].
  - destruct path as [|x t]; [cbn in Hl; lia|].
    destruct (decide (a ≠ b)); reflexivity.
  - destruct (decide (a ≠ b)) as [Hab|Hab].
    + rewrite last_snoc. congruence.
    + apply dec_stable in Hab. congruence.
  - destruct (decide (a ≠ b)) as [Hab|Hab]; [|apply take_every_sublist].
    apply last_Some in Hb as [init ->].
    destruct (take_every_snoc gap 0 init b) as [E|E].
    + rewrite E. apply sublist_app; [apply take_every_sublist|reflexivity].
    + rewrite E, last_snoc in Ha. congruence.
Qed.

End ReducerRuns.

(** ** Claims about the way-point reduction *)

Section ReducerClaims.
Local Open Scope Z_scope.
Import Reducer.

(** What the program's bound of 23 does guarantee: at most 43 nodes, and a
    path of 43 nodes is indeed kept whole. *)
Lemma url_nodes_length (path r : list Z) :
  url_nodes path = Ok r -> Z.of_nat (length r) <= 43.
Proof.
  intros Hr.
  destruct (reduce_waypoints_result max_waypoints_for_url path)
    as (r' & Hr' & Hb); [unfold max_waypoints_for_url; lia|].
  unfold url_nodes in Hr. rewrite Hr' in Hr. injection Hr as ->.
  unfold max_waypoints_for_url in Hb. destruct Hb as [Hb|[_ Hb]]; [lia|].
  change (23 - 1) with 22 in Hb.
  pose proof (Z.div_mod (Z.of_nat (length r)) 22 ltac:(lia)) as Hdm.
  pose proof (Z.mod_pos_bound (Z.of_nat (length r)) 22 ltac:(lia)) as Hm.
  lia.
Qed.

Lemma url_nodes_keeps_43 :
  url_nodes (map Z.of_nat (seq 0 43)) = Ok (map Z.of_nat (seq 0 43)).
Proof. reflexivity. Qed.

(** C8, on the program. A path of 25 nodes is above the bound of 23, the
    stride is [25 // 22 = 1], and all 25 nodes are kept: one more than
    [max_count + 1]. *)
Theorem url_nodes_exceeds_bound :
  url_nodes (map Z.of_nat (seq 0 25)) = Ok (map Z.of_nat (seq 0 25))
  /\ max_waypoints_for_url + 1 < Z.of_nat (length (map Z.of_nat (seq 0 25))).
Proof. split; [reflexivity|]. cbn. unfold max_waypoints_for_url. lia. Qed.

(** C9. Reducing twice gives what reducing once gives: for the program's
    bound of 23 on every path, and for every bound of at least 2; a path no
    longer than the bound is returned as it is, whatever the bound. *)
Theorem waypoint_reduction_idempotent :
  (forall path : list Z,
     exists r : list Z, url_nodes path = Ok r /\ url_nodes r = Ok r)
  /\ (forall (k : Z) (path : list Z),
        Z.of_nat (length path) <= k -> reduce_waypoints k path = Ok path)
  /\ (forall (k : Z) (path : list Z),
        2 <= k ->
        exists r : list Z,
          reduce_waypoints k path = Ok r /\ reduce_waypoints k r = Ok r).
Proof.
  split; [|split].
  - intros path. apply reduce_waypoints_idempotent.
    unfold max_waypoints_for_url. lia.
  - apply reduce_short.
  - apply reduce_waypoints_idempotent.
Qed.

End ReducerClaims.

Lemma waypoint_reduction_idempotent_witness :
  (exists r : list Z,
     Reducer.url_nodes (map Z.of_nat (seq 0 50)) = Ok r
     /\ Reducer.url_nodes r = Ok r)
  /\ Reducer.reduce_waypoints 23 [5; 7; 5]%Z = Ok [5; 7; 5]%Z
  /\ (exists r : list Z,
        Reducer.reduce_waypoints 3 [0; 1; 2; 3; 4]%Z = Ok r
        /\ Reducer.reduce_waypoints 3 r = Ok r).
Proof.
  destruct waypoint_reduction_idempotent as (H1 & H2 & H3).
  split; [apply H1|]. split; [apply H2; cbn; lia|apply H3; lia].
Defined.

(** * Further properties of the program *)

(** ** What one call of the loop builder costs and prints *)

Section WalkEvents.

Variable rng : Type.
Variable random : rng -> R * rng.
Variable nearest_nodes : graph -> R -> R -> Z.
Variable shortest_path : graph -> Z -> Z -> option (list Z).

Abbreviation walk :=
  (generate_walk_in_circle random nearest_nodes shortest_path).
Abbreviation one_attempt := (attempt random nearest_nodes shortest_path).
Abbreviation loop := (attempts random nearest_nodes shortest_path).

(** The counters of a trace this section bounds. *)
Abbreviation draws := (count is_random).
Abbreviation lookups := (count is_nearest_nodes).
Abbreviation queries := (count is_shortest_path).

Lemma sampler_events (lat lon radius_km : R) (w w' : world rng)
    (r : result (R * R)) :
  get_random_point_in_circle random lat lon radius_km w = (r, w') ->
  w_trace w' = w_trace w ++ [EvRandom]
  \/ w_trace w' = w_trace w ++ [EvRandom; EvRandom].
Proof.
  unfold get_random_point_in_circle, bind, random_uniform, lift, ret,
    PyMath.sqrt, PyMath.asin.
  destruct (random (w_rng w)) as [u g1]. cbn [w_rng w_trace].
  destruct (Rlt_dec (0 + (1 - 0) * u) 0).
  { intros [= <- <-]. left. reflexivity. }
  cbn [w_rng w_trace]. destruct (random g1) as [v g2].
  repeat match goal with
  | |- context [if ?c then _ else _] => destruct c
  end; intros [= <- <-]; right; cbn [w_trace]; rewrite <- app_assoc;
  reflexivity.
Qed.

Lemma try_block_events (g : graph) (start_node node_b node_c : Z)
    (min_dist_m max_dist_m : R) (w w' : world rng)
    (r : result (option (list Z))) :
  try_except
    (try_body shortest_path g start_node node_b node_c min_dist_m max_dist_m)
    (ret None) w = (r, w') ->
  exists evs : list event,
    w' = extend w evs
    /\ draws evs = 0%nat /\ lookups evs = 0%nat /\ (queries evs <= 3)%nat
    /\ (forall p, r = Ok (Some p) ->
        exists len : R,
          path_length g p = Ok len /\ last evs = Some (EvPrintSuccess len)).
Proof.
  rewrite try_block_run. cbv zeta.
  repeat match goal with
  | |- context [match shortest_path ?a ?b ?c with _ => _ end] =>
      destruct (shortest_path a b c)
  end;
  try (intros [= <- <-]; eexists; split; [reflexivity|];
       cbn; repeat split; try lia; discriminate).
  destruct (path_length g _) as [len|e] eqn:El;
    [|intros [= <- <-]; eexists; split; [reflexivity|];
      cbn; repeat split; try lia; discriminate].
  destruct (Rle_dec min_dist_m len);
    [|intros [= <- <-]; eexists; split; [reflexivity|];
      cbn; repeat split; try lia; discriminate].
  destruct (Rle_dec len max_dist_m);
    [|intros [= <- <-]; eexists; split; [reflexivity|];
      cbn; repeat split; try lia; discriminate].
  intros [= <- <-]. eexists. split; [reflexivity|].
  cbn. repeat split; try lia.
  intros p [= <-]. exists len. split; [exact El|reflexivity].
Qed.

Lemma attempt_events (g : graph) (start_node : Z) (start_lat start_lon : R)
    (radius_km min_dist_m max_dist_m : R) (max_attempts : Z) (i : nat)
    (w w' : world rng) (r : result (option (list Z))) :
  one_attempt g start_node start_lat start_lon radius_km
    min_dist_m max_dist_m max_attempts i w = (r, w') ->
  exists evs : list event,
    w_trace w' = w_trace w ++ evs
    /\ (draws evs <= 4)%nat /\ (lookups evs <= 2)%nat /\ (queries evs <= 3)%nat
    /\ (forall p, r = Ok (Some p) ->
        exists len : R,
          path_length g p = Ok len /\ last evs = Some (EvPrintSuccess len)).
Proof.
  unfold attempt, bind, emit.
  destruct (get_random_point_in_circle _ _ _ _ (extend w _)) as [rb w1] eqn:Hb.
  apply sampler_events in Hb. cbn [extend w_trace] in Hb.
  destruct rb as [b|eb].
  2:{ intros [= <- <-].
      destruct Hb as [-> | ->]; rewrite <- app_assoc; eexists;
        (split; [reflexivity|]); cbn; repeat split; try lia; discriminate. }
  destruct (get_random_point_in_circle _ _ _ _ w1) as [rc w2] eqn:Hc.
  apply sampler_events in Hc.
  destruct rc as [c|ec].
  2:{ intros [= <- <-].
      destruct Hb as [Hb|Hb], Hc as [Hc|Hc]; rewrite Hc, Hb;
        rewrite <- !app_assoc; eexists; (split; [reflexivity|]);
        cbn; repeat split; try lia; discriminate. }
  unfold call_nearest_nodes, bind, emit, ret. rewrite extend_extend.
  destruct (degenerate _ _ _).
  - intros [= <- <-]. cbn [extend w_trace].
    destruct Hb as [Hb|Hb], Hc as [Hc|Hc]; rewrite Hc, Hb;
      rewrite <- !app_assoc; eexists; (split; [reflexivity|]);
      cbn; repeat split; try lia; discriminate.
  - intros Ht.
    apply try_block_events in Ht as (evs & -> & Hd & Hl & Hq & Hp).
    cbn [extend w_trace].
    destruct Hb as [Hb|Hb], Hc as [Hc|Hc]; rewrite Hc, Hb;
      rewrite <- !app_assoc; eexists; (split; [reflexivity|]);
      (split; [rewrite !count_app, Hd; cbn; lia|]);
      (split; [rewrite !count_app, Hl; cbn; lia|]);
      (split; [rewrite !count_app; cbn; lia|]);
      intros p Hr; destruct (Hp p Hr) as (len & Hlen & Hlast);
      exists len; (split; [exact Hlen|]);
      rewrite !last_app, Hlast; reflexivity.
Qed.

Lemma attempts_events (g : graph) (start_node : Z) (start_lat start_lon : R)
    (radius_km min_dist_m max_dist_m : R) (max_attempts : Z) (n i : nat)
    (w w' : world rng) (r : result (option (list Z))) :
  loop g start_node start_lat start_lon radius_km
    min_dist_m max_dist_m max_attempts i n w = (r, w') ->
  exists evs : list event,
    w_trace w' = w_trace w ++ evs
    /\ (draws evs <= 4 * n)%nat /\ (lookups evs <= 2 * n)%nat
    /\ (queries evs <= 3 * n)%nat
    /\ (forall p, r = Ok (Some p) ->
        exists len : R,
          path_length g p = Ok len /\ last evs = Some (EvPrintSuccess len))
    /\ (r = Ok None -> last evs = Some EvPrintGiveUp).
Proof.
  revert i w. induction n as [|n IH]; intros i w.
  - cbn. unfold bind, emit, ret. intros [= <- <-].
    exists [EvPrintGiveUp]. cbn. repeat split; try lia; discriminate.
  - cbn [attempts]. unfold bind.
    destruct (attempt _ _ _ _ _ _ _ _ _ _ _ _ w) as [ra w1] eqn:Ha.
    apply attempt_events in Ha as (e1 & Ht1 & Hd1 & Hl1 & Hq1 & Hp1).
    destruct ra as [[p|]|e].
    + unfold ret. intros [= <- <-]. exists e1.
      repeat split; try lia; try assumption; discriminate.
    + intros Hrest.
      apply IH in Hrest as (e2 & Ht2 & Hd2 & Hl2 & Hq2 & Hp2 & Hn2).
      exists (e1 ++ e2). rewrite !count_app.
      split; [rewrite Ht2, Ht1, <- app_assoc; reflexivity|].
      repeat split; try lia.
      * intros p Hr. destruct (Hp2 p Hr) as (len & Hlen & Hlast).
        exists len. split; [exact Hlen|]. rewrite last_app, Hlast. reflexivity.
      * intros Hr. rewrite last_app, (Hn2 Hr). reflexivity.
    + intros [= <- <-]. exists e1.
      repeat split; try lia; try assumption; discriminate.
Qed.

(** The same for a whole call. *)
Lemma walk_events (g : graph) (start_node : Z)
    (target_km tolerance : R) (max_attempts : Z) (w w' : world rng)
    (r : result (option (list Z))) :
  walk g start_node target_km tolerance max_attempts w = (r, w') ->
  exists evs : list event,
    w_trace w' = w_trace w ++ evs
    /\ (draws evs <= 4 * Z.to_nat max_attempts)%nat
    /\ (lookups evs <= 2 * Z.to_nat max_attempts)%nat
    /\ (queries evs <= 3 * Z.to_nat max_attempts)%nat
    /\ (forall p, r = Ok (Some p) ->
        exists len : R,
          path_length g p = Ok len /\ last evs = Some (EvPrintSuccess len))
    /\ (r = Ok None -> last evs = Some EvPrintGiveUp).
Proof.
  unfold generate_walk_in_circle, bind, lift.
  destruct (node_attr g start_node "y");
    [|intros [= <- <-]; exists []; cbn; rewrite app_nil_r;
      repeat split; try lia; discriminate].
  destruct (node_attr g start_node "x");
    [|intros [= <- <-]; exists []; cbn; rewrite app_nil_r;
      repeat split; try lia; discriminate].
  apply attempts_events.
Qed.

(** X2. Whatever the inputs and the outcome, a call draws at most
    [4 * max_attempts] random numbers, resolves at most [2 * max_attempts]
    points to nodes and asks at most [3 * max_attempts] shortest paths. *)
Theorem walk_effort_bounded (g : graph) (start_node : Z)
    (target_km tolerance : R) (max_attempts : Z) (w : world rng) :
  exists evs : list event,
    w_trace (walk g start_node target_km tolerance max_attempts w).2
    = w_trace w ++ evs
    /\ (draws evs <= 4 * Z.to_nat max_attempts)%nat
    /\ (lookups evs <= 2 * Z.to_nat max_attempts)%nat
    /\ (queries evs <= 3 * Z.to_nat max_attempts)%nat.
Proof.
  destruct (walk g start_node target_km tolerance max_attempts w)
    as [r w'] eqn:E.
  apply walk_events in E as (evs & Ht & Hd & Hl & Hq & _).
  exists evs. cbn [snd]. auto.
Qed.

(** X3. The last thing a call that returns has printed tells its outcome:
    the success message with the recomputed length of the returned path, or
    the closing message when it returns [None]. *)
Theorem walk_last_message (g : graph) (start_node : Z)
    (target_km tolerance : R) (max_attempts : Z) (w w' : world rng)
    (o : option (list Z)) :
  walk g start_node target_km tolerance max_attempts w = (Ok o, w') ->
  match o with
  | Some p =>
      exists len : R,
        path_length g p = Ok len
        /\ last (w_trace w') = Some (EvPrintSuccess len)
  | None => last (w_trace w') = Some EvPrintGiveUp
  end.
Proof.
  intros E. apply walk_events in E as (evs & Ht & _ & _ & _ & Hp & Hn).
  rewrite Ht, last_app. destruct o as [p|].
  - destruct (Hp p eq_refl) as (len & Hlen & Hlast).
    exists len. rewrite Hlast. auto.
  - rewrite (Hn eq_refl). reflexivity.
Qed.

(** A returned path is not empty when the oracle's paths end at their
    target. *)
Lemma returned_path_nonempty
    (oracle_ends : forall g s t p, shortest_path g s t = Some p ->
                   head p = Some s /\ last p = Some t)
    (g : graph) (start_node : Z) (target_km tolerance : R) (max_attempts : Z)
    (w w' : world rng) (p : list Z) :
  walk g start_node target_km tolerance max_attempts w = (Ok (Some p), w') ->
  p <> [].
Proof.
  intros H. apply walk_inv in H as (_ & _ & Hf).
  destruct (Hf p eq_refl)
    as (nb & nc & pab & pbc & pca & len & _ & _ & _ & Hca & -> & _ & _).
  apply oracle_ends in Hca as [_ Hl]. intros E.
  apply app_eq_nil in E as [_ E]. apply app_eq_nil in E as [_ ->].
  discriminate.
Qed.

End WalkEvents.

(** ** Failures, empty bands and the shape of a returned loop *)

Section WalkOutcomes.

Variable rng : Type.
Variable random : rng -> R * rng.
Variable nearest_nodes : graph -> R -> R -> Z.
Variable shortest_path : graph -> Z -> Z -> option (list Z).

Abbreviation walk :=
  (generate_walk_in_circle random nearest_nodes shortest_path).

Lemma node_attr_cases (g : graph) (n : Z) (key : string) :
  (exists v, node_attr g n key = Ok v) \/ node_attr g n key = Raise KeyError.
Proof.
  unfold node_attr, getitem. destruct (nodes g !! n) as [d|]; cbn; [|auto].
  destruct (d !! key); eauto.
Qed.

Lemma path_split (s t : Z) (p : list Z) :
  head p = Some s -> last p = Some t -> s <> t ->
  exists m, p = s :: m ++ [t].
Proof.
  intros Hh Hl Hne. apply last_Some in Hl as [q ->].
  destruct q as [|x m]; cbn in Hh; [congruence|].
  injection Hh as ->. eauto.
Qed.

(** X5. A returned loop leaves the start node, reaches a first way-point,
    then a second one, and comes back to the start node, the two way-points
    differing from the start node and from each other; so it has at least
    four nodes. The oracle is taken to answer with a path from its source to
    its target. *)
Theorem returned_loop_visits_two_waypoints
    (oracle_ends : forall g s t p, shortest_path g s t = Some p ->
                   head p = Some s /\ last p = Some t)
    (g : graph) (start_node : Z) (target_km tolerance : R) (max_attempts : Z)
    (w w' : world rng) (path : list Z) :
  walk g start_node target_km tolerance max_attempts w = (Ok (Some path), w') ->
  exists (node_b node_c : Z) (m1 m2 m3 : list Z),
    node_b <> start_node /\ node_c <> start_node /\ node_b <> node_c
    /\ path = start_node :: m1 ++ node_b :: m2 ++ node_c :: m3 ++ [start_node]
    /\ (4 <= length path)%nat.
Proof.
  intros H. apply walk_inv in H as (_ & _ & Hf).
  destruct (Hf path eq_refl)
    as (nb & nc & pab & pbc & pca & len & Hd & Hab & Hbc & Hca & -> & _ & _).
  apply degenerate_false in Hd as (Hnb & Hnc & Hne).
  apply oracle_ends in Hab as [Hab1 Hab2].
  apply oracle_ends in Hbc as [Hbc1 Hbc2].
  apply oracle_ends in Hca as [Hca1 Hca2].
  destruct (path_split _ _ _ Hab1 Hab2 ltac:(congruence)) as [m1 ->].
  destruct (path_split _ _ _ Hbc1 Hbc2 Hne) as [m2 ->].
  destruct (path_split _ _ _ Hca1 Hca2 Hnc) as [m3 ->].
  exists nb, nc, m1, m2, m3. unfold but_last.
  rewrite !app_comm_cons, !removelast_last.
  split; [exact Hnb|]. split; [exact Hnc|]. split; [exact Hne|].
  split; [reflexivity|].
  rewrite !length_app. cbn. lia.
Qed.

(** X4. Only two exceptions can leave a call. A [KeyError] leaves it exactly
    when the start node has no ['y'] or no ['x'] in the network, and then at
    once, before anything is printed, drawn or asked; any other exception is
    a [ValueError]. *)
Theorem walk_raises_keyerror_only_on_unknown_start (g : graph) (start_node : Z)
    (target_km tolerance : R) (max_attempts : Z) (w : world rng) :
  let unknown := node_attr g start_node "y" = Raise KeyError
                 \/ node_attr g start_node "x" = Raise KeyError in
  (unknown ->
   walk g start_node target_km tolerance max_attempts w = (Raise KeyError, w))
  /\ (forall (e : exn) (w' : world rng),
        walk g start_node target_km tolerance max_attempts w = (Raise e, w') ->
        (e = KeyError /\ w' = w /\ unknown) \/ e = ValueError).
Proof.
  intros unknown. split.
  - intros [Hy|Hx]; unfold generate_walk_in_circle, bind, lift.
    + rewrite Hy. reflexivity.
    + destruct (node_attr_cases g start_node "y") as [[lat ->]| ->];
        [rewrite Hx|]; reflexivity.
  - intros e w' H. apply walk_inv in H as (_ & Hr & _).
    destruct (Hr e eq_refl) as [He|(He & Hw & Hu)]; [right; exact He|].
    left. auto.
Qed.

End WalkOutcomes.

Lemma walk_last_message_witness :
  exists len : R,
    path_length Demo.triangle [1; 2; 3; 1]%Z = Ok len
    /\ last (w_trace (generate_walk_in_circle Demo.tick Demo.north_south
                        Demo.ring_paths Demo.triangle 1 4 (15 / 100) 50
                        Demo.w0).2)
       = Some (EvPrintSuccess len).
Proof.
  apply (walk_last_message nat Demo.tick Demo.north_south Demo.ring_paths
           Demo.triangle 1 4 (15 / 100) 50 Demo.w0 _ (Some [1; 2; 3; 1]%Z)).
  rewrite <- demo_walk_found. apply surjective_pairing.
Defined.

Lemma returned_loop_visits_two_waypoints_witness :
  exists (node_b node_c : Z) (m1 m2 m3 : list Z),
    node_b <> 1%Z /\ node_c <> 1%Z /\ node_b <> node_c
    /\ [1; 2; 3; 1]%Z = 1%Z :: m1 ++ node_b :: m2 ++ node_c :: m3 ++ [1%Z]
    /\ (4 <= length [1; 2; 3; 1]%Z)%nat.
Proof.
  apply (returned_loop_visits_two_waypoints nat Demo.tick Demo.north_south
           Demo.ring_paths ring_paths_ends Demo.triangle 1 4 (15 / 100) 50
           Demo.w0
           (generate_walk_in_circle Demo.tick Demo.north_south Demo.ring_paths
              Demo.triangle 1 4 (15 / 100) 50 Demo.w0).2).
  rewrite <- demo_walk_found. apply surjective_pairing.
Defined.

Lemma walk_raises_keyerror_only_on_unknown_start_witness :
  generate_walk_in_circle Demo.tick Demo.north_south Demo.ring_paths
    Demo.triangle 7 4 (15 / 100) 50 Demo.w0 = (Raise KeyError, Demo.w0)
  /\ ((KeyError = KeyError /\ Demo.w0 = Demo.w0
       /\ (node_attr Demo.triangle 7 "y" = Raise KeyError
           \/ node_attr Demo.triangle 7 "x" = Raise KeyError))
      \/ KeyError = ValueError).
Proof.
  destruct (walk_raises_keyerror_only_on_unknown_start nat Demo.tick
              Demo.north_south Demo.ring_paths Demo.triangle 7 4 (15 / 100)
              50 Demo.w0) as [H1 H2].
  assert (E : generate_walk_in_circle Demo.tick Demo.north_south
                Demo.ring_paths Demo.triangle 7 4 (15 / 100) 50 Demo.w0
              = (Raise KeyError, Demo.w0)) by (apply H1; left; reflexivity).
  split; [exact E|]. exact (H2 _ _ E).
Defined.

(** ** What the way-point reduction keeps *)

Section ReducerKeeps.
Local Open Scope Z_scope.
Import Reducer.

(** X7. The way-points for the link are a subsequence of the path with the
    same first and the same last node, and the whole path when it has at most
    23 nodes; computing them never fails. *)
Theorem url_nodes_keep_ends (path : list Z) :
  exists r : list Z,
    url_nodes path = Ok r
    /\ head r = head path /\ last r = last path
    /\ r `sublist_of` path
    /\ (Z.of_nat (length path) <= 23 -> r = path).
Proof.
  destruct (reduce_waypoints_result max_waypoints_for_url path)
    as (r & Hr & _); [unfold max_waypoints_for_url; lia|].
  exists r. split; [exact Hr|].
  apply (reduce_waypoints_shape max_waypoints_for_url path r);
    [unfold max_waypoints_for_url; lia|exact Hr].
Qed.

(** X8. The link gets at most 43 way-points and never more than the path
    has; it gets at least 22 of them as soon as the path has that many. *)
Theorem url_nodes_count (path : list Z) :
  exists r : list Z,
    url_nodes path = Ok r
    /\ (Nat.min (length path) 22 <= length r <= Nat.min (length path) 43)%nat.
Proof.
  destruct (reduce_waypoints_result max_waypoints_for_url path)
    as (r & Hr & _); [unfold max_waypoints_for_url; lia|].
  destruct (reduce_waypoints_shape max_waypoints_for_url path r)
    as (_ & _ & Hsub & Hshort); [unfold max_waypoints_for_url; lia|exact Hr|].
  fold (url_nodes path) in Hr. unfold max_waypoints_for_url in Hshort.
  exists r. split; [exact Hr|].
  pose proof (sublist_length _ _ Hsub) as Hle.
  pose proof (url_nodes_length path r Hr) as H43.
  destruct (decide (Z.of_nat (length path) <= 23)) as [Hs|Hl].
  { rewrite (Hshort Hs). lia. }
  split; [|lia].
  (* above the bound: the stride is [len // 22], so at least 22 are taken *)
  destruct (reduce_long max_waypoints_for_url path) as (a & b & _ & _ & Hr');
    [unfold max_waypoints_for_url; lia..|].
  cbv zeta in Hr'. unfold url_nodes in Hr. rewrite Hr' in Hr.
  injection Hr as <-. unfold max_waypoints_for_url in *.
  change (23 - 1) with 22 in *.
  set (n := Z.of_nat (length path)) in *. set (q := n / 22) in *.
  assert (Hq : 1 <= q) by (apply Z.div_le_lower_bound; lia).
  pose proof (Z.div_mod n 22 ltac:(lia)) as Hdm.
  pose proof (Z.mod_pos_bound n 22 ltac:(lia)) as Hm. fold q in Hdm.
  pose proof (take_every_count (Z.to_nat q - 1) 0 path) as [Hc1 _].
  replace (Z.to_nat q - 1 + 1)%nat with (Z.to_nat q) in Hc1 by lia.
  set (url := take_every (Z.to_nat q - 1) 0 path) in *.
  assert (22 <= Z.of_nat (length url)) by (unfold n in *; nia).
  destruct (decide (a ≠ b)); [rewrite length_app|]; lia.
Qed.

End ReducerKeeps.

(** ** The map cache *)

Section MapCache.
Import Outer.

Variable load_graphml : string -> result graph.
Variable graph_from_place : string -> result graph.
Variable save_graphml : graph -> string.

Abbreviation setup :=
  (setup_map_graph load_graphml graph_from_place save_graphml).

(** The call when the map file is there. *)
Lemma setup_hit (place_name filepath text : string) (d : disk) :
  files d !! filepath = Some text ->
  setup place_name filepath d
  = match load_graphml text with
    | Ok g =>
        (Ok g,
         Disk (files d)
           (io_log d ++
            [IoPrint ("Map file '" +:+ filepath
                      +:+ "' found. Loading from disk...");
             IoLoad filepath;
             IoPrint "Map loaded successfully."]))
    | Raise e =>
        (Raise e,
         Disk (files d)
           (io_log d ++
            [IoPrint ("Map file '" +:+ filepath
                      +:+ "' found. Loading from disk...");
             IoLoad filepath]))
    end.
Proof.
  intros H. unfold setup_map_graph. rewrite H.
  unfold io_bind, say, io_emit, io_lift, io_ret. cbn [files io_log].
  destruct (load_graphml text); cbn [files io_log];
    rewrite <- !app_assoc; reflexivity.
Qed.

(** The call when the map file is missing. *)
Lemma setup_miss (place_name filepath : string) (d : disk) :
  files d !! filepath = None ->
  setup place_name filepath d
  = let banner :=
      [IoPrint ("Map file not found. Downloading map for '" +:+ place_name
                +:+ "'...");
       IoPrint "This is a one-time download and may take several minutes.";
       IoDownload place_name] in
    match graph_from_place place_name with
    | Ok g =>
        (Ok g,
         Disk (<[filepath := save_graphml g]> (files d))
           (io_log d ++ banner ++
            [IoSave filepath;
             IoPrint ("Map downloaded and saved to '" +:+ filepath
                      +:+ "' for future use.")]))
    | Raise e => (Raise e, Disk (files d) (io_log d ++ banner))
    end.
Proof.
  intros H. unfold setup_map_graph. rewrite H.
  unfold io_bind, say, io_emit, io_lift, io_ret, put_file.
  cbn [files io_log].
  destruct (graph_from_place place_name); cbn [files io_log];
    rewrite <- !app_assoc; reflexivity.
Qed.

(** What a call can do to the files: nothing, or create the missing map file
    with the text of the downloaded network. *)
Lemma setup_files (place_name filepath : string) (d : disk) :
  files (setup place_name filepath d).2 = files d
  \/ (files d !! filepath = None
      /\ exists g : graph,
           (setup place_name filepath d).1 = Ok g
           /\ graph_from_place place_name = Ok g
           /\ files (setup place_name filepath d).2
              = <[filepath := save_graphml g]> (files d)).
Proof.
  destruct (files d !! filepath) as [text|] eqn:E.
  - left. rewrite (setup_hit _ _ _ _ E). destruct (load_graphml text); reflexivity.
  - rewrite (setup_miss _ _ _ E). cbv zeta.
    destruct (graph_from_place place_name) as [g|e] eqn:G.
    + right. split; [reflexivity|]. exists g. auto.
    + left. reflexivity.
Qed.

(** X9. [setup_map_graph] never overwrites or removes a file: either it
    leaves all files as they are (the map file was there, or the download
    failed), or the map file was missing and is created with the text of the
    network just downloaded, which is the network returned. *)
Theorem setup_only_creates_the_missing_map
    (place_name filepath : string) (d : disk) :
  files (setup place_name filepath d).2 = files d
  \/ (files d !! filepath = None
      /\ exists g : graph,
           (setup place_name filepath d).1 = Ok g
           /\ graph_from_place place_name = Ok g
           /\ files (setup place_name filepath d).2
              = <[filepath := save_graphml g]> (files d)).
Proof. apply setup_files. Qed.

(** X10. After a call that returned, the map file is there, and every later
    call for this file downloads nothing, saves nothing and changes no file:
    it returns what loading the file gives. If the first call had to
    download, the file holds the text saved for the network it returned. *)
Theorem map_is_downloaded_once
    (place_name filepath : string) (d d1 : disk) (g : graph) :
  setup place_name filepath d = (Ok g, d1) ->
  exists text : string,
    files d1 !! filepath = Some text
    /\ (files d !! filepath = None -> text = save_graphml g)
    /\ forall later_place : string,
         exists evs : list io_event,
           setup later_place filepath d1
           = (load_graphml text, Disk (files d1) (io_log d1 ++ evs))
           /\ Forall (fun e => is_download e = false /\ is_save e = false) evs.
Proof.
  intros H.
  assert (Hthere : exists text, files d1 !! filepath = Some text
                   /\ (files d !! filepath = None -> text = save_graphml g)).
  { destruct (files d !! filepath) as [text|] eqn:E.
    - rewrite (setup_hit _ _ _ _ E) in H.
      destruct (load_graphml text); [|discriminate].
      injection H as _ <-. exists text. cbn. split; [exact E|discriminate].
    - rewrite (setup_miss _ _ _ E) in H. cbv zeta in H.
      destruct (graph_from_place place_name); [|discriminate].
      injection H as -> <-. exists (save_graphml g). cbn.
      rewrite lookup_insert_eq. auto. }
  destruct Hthere as (text & Ht & Hsaved). exists text.
  split; [exact Ht|]. split; [exact Hsaved|].
  intros later_place. rewrite (setup_hit _ _ _ _ Ht).
  destruct (load_graphml text); eexists; (split; [reflexivity|]);
    repeat constructor.
Qed.

End MapCache.

Lemma map_is_downloaded_once_witness :
  exists text : string,
    <["kolkata_walk_map.graphml" := "triangle"]>
      (Outer.files DemoOuter.empty_disk) !! "kolkata_walk_map.graphml"
    = Some text
    /\ text = DemoOuter.save Demo.triangle.
Proof.
  destruct (map_is_downloaded_once DemoOuter.load DemoOuter.download
              DemoOuter.save "Kolkata, West Bengal, India"
              "kolkata_walk_map.graphml" DemoOuter.empty_disk
              (Outer.setup_map_graph DemoOuter.load DemoOuter.download
                 DemoOuter.save "Kolkata, West Bengal, India"
                 "kolkata_walk_map.graphml" DemoOuter.empty_disk).2
              Demo.triangle eq_refl) as (text & Ht & Hs & _).
  exists text. split; [exact Ht|]. apply Hs. reflexivity.
Defined.

(** ** The output file *)

Section OutputFile.
Import Outer.

Variable show : R -> string.

Abbreviation save := (save_path_for_gmaps show).
Abbreviation coord_of := (coord show).
Abbreviation coords_of := (coords show).

Lemma coord_cases (g : graph) (node : Z) :
  (located g node /\ exists c, coord_of g node = Ok c)
  \/ (~ located g node /\ coord_of g node = Raise KeyError).
Proof.
  unfold coord, located.
  destruct (node_attr_cases g node "y") as [[y Hy]|Hy]; rewrite Hy; cbn.
  - destruct (node_attr_cases g node "x") as [[x Hx]|Hx]; rewrite Hx; cbn.
    + left. split; [exists y, x; split; reflexivity|eexists; reflexivity].
    + right. split; [|reflexivity]. intros (y' & x' & _ & H). discriminate.
  - right. split; [|reflexivity]. intros (y' & x' & H & _). discriminate.
Qed.

(** The comprehension succeeds exactly on located nodes, one text per node. *)
Lemma coords_cases (g : graph) (l : list Z) :
  (Forall (located g) l
   /\ exists cs, coords_of g l = Ok cs
                 /\ Forall2 (fun n c => coord_of g n = Ok c) l cs)
  \/ (~ Forall (located g) l /\ coords_of g l = Raise KeyError).
Proof.
  induction l as [|n rest IH]; cbn.
  - left. split; [constructor|]. exists []. split; [reflexivity|constructor].
  - destruct (coord_cases g n) as [[Hn [c Hc]]|[Hn Hc]]; rewrite Hc; cbn.
    + destruct IH as [[Hr (cs & Hcs & H2)]|[Hr Hcs]]; rewrite Hcs; cbn.
      * left. split; [constructor; assumption|].
        exists (c :: cs). split; [reflexivity|]. constructor; assumption.
      * right. split; [|reflexivity]. intros H. apply Hr.
        apply Forall_cons in H as [_ H]. exact H.
    + right. split; [|reflexivity]. intros H. apply Hn.
      apply Forall_cons in H as [H _]. exact H.
Qed.

Lemma Forall_sublist_of {A : Type} (P : A -> Prop) (r l : list A) :
  r `sublist_of` l -> Forall P l -> Forall P r.
Proof.
  induction 1 as [|x r l _ IH|x r l _ IH]; intros H.
  - constructor.
  - apply Forall_cons in H as [Hx H]. constructor; auto.
  - apply Forall_cons in H as [_ H]. auto.
Qed.

(** The call on a path whose nodes are all located. *)
Lemma save_run (g : graph) (path_nodes : list Z) (filename : string)
    (d : disk) :
  Forall (located g) path_nodes ->
  exists (url_nodes : list Z) (url_coords full_coords : list string),
    Reducer.url_nodes path_nodes = Ok url_nodes
    /\ Forall2 (fun n c => coord_of g n = Ok c) url_nodes url_coords
    /\ Forall2 (fun n c => coord_of g n = Ok c) path_nodes full_coords
    /\ save g path_nodes filename d
       = (Ok tt,
          Disk (<[filename := file_text
                    (base_url +:+ String.concat "/" url_coords) full_coords]>
                  (files d))
            (io_log d ++
             [IoWrite filename;
              IoPrint ("Path saved! Check the file '" +:+ filename
                       +:+ "' for your Google Maps link.")])).
Proof.
  intros Hall.
  destruct (reduce_waypoints_result Reducer.max_waypoints_for_url path_nodes)
    as (r & Hr & _); [unfold Reducer.max_waypoints_for_url; lia|].
  destruct (reduce_waypoints_shape Reducer.max_waypoints_for_url path_nodes r)
    as (_ & _ & Hsub & _);
    [unfold Reducer.max_waypoints_for_url; lia|exact Hr|].
  fold (Reducer.url_nodes path_nodes) in Hr.
  destruct (coords_cases g r) as [[_ (uc & Huc & H2u)]|[Hn _]];
    [|exfalso; apply Hn; eapply Forall_sublist_of; eassumption].
  destruct (coords_cases g path_nodes) as [[_ (fc & Hfc & H2f)]|[Hn _]];
    [|contradiction].
  exists r, uc, fc. repeat split; try assumption.
  unfold save_path_for_gmaps, io_bind, io_lift, io_emit, put_file, say.
  rewrite Hr, Huc, Hfc. cbn [files io_log]. unfold io_emit.
  cbn [files io_log]. rewrite <- app_assoc. reflexivity.
Qed.

(** The call on a path with a node that is not located. *)
Lemma save_fail (g : graph) (path_nodes : list Z) (filename : string)
    (d : disk) :
  ~ Forall (located g) path_nodes ->
  save g path_nodes filename d = (Raise KeyError, d).
Proof.
  intros Hn.
  destruct (reduce_waypoints_result Reducer.max_waypoints_for_url path_nodes)
    as (r & Hr & _); [unfold Reducer.max_waypoints_for_url; lia|].
  fold (Reducer.url_nodes path_nodes) in Hr.
  destruct (coords_cases g path_nodes) as [[Hall _]|[_ Hfc]];
    [contradiction|].
  unfold save_path_for_gmaps, io_bind, io_lift. rewrite Hr.
  destruct (coords_cases g r) as [[_ (uc & -> & _)]|[_ ->]];
    [rewrite Hfc|]; reflexivity.
Qed.

(** X11. A node without coordinates is found out before the output file is
    opened: when some node of the path lacks ['y'] or ['x'] the call raises
    [KeyError] and has changed no file and printed nothing; and it raises
    [KeyError] in no other case. *)
Theorem save_path_rejects_unlocated_nodes (g : graph) (path_nodes : list Z)
    (filename : string) (d : disk) :
  (~ Forall (located g) path_nodes ->
   save g path_nodes filename d = (Raise KeyError, d))
  /\ (forall d' : disk,
        save g path_nodes filename d = (Raise KeyError, d') ->
        ~ Forall (located g) path_nodes).
Proof.
  split; [apply save_fail|].
  intros d' H Hall.
  destruct (save_run g path_nodes filename d Hall)
    as (r & uc & fc & _ & _ & _ & E).
  rewrite E in H. discriminate.
Qed.

(** X12. The link written to the file goes through at most 43 coordinates,
    the first being those of the path's first node and the last those of its
    last node; the list under it has the coordinates of every node of the
    path, in order. *)
Theorem link_runs_from_first_to_last_node (g : graph) (path_nodes : list Z)
    (filename : string) (d : disk) (s t : Z) :
  Forall (located g) path_nodes ->
  head path_nodes = Some s -> last path_nodes = Some t ->
  exists (cs ct : string) (url_coords full_coords : list string),
    coord_of g s = Ok cs /\ coord_of g t = Ok ct
    /\ head url_coords = Some cs /\ last url_coords = Some ct
    /\ (length url_coords <= 43)%nat
    /\ Forall2 (fun n c => coord_of g n = Ok c) path_nodes full_coords
    /\ files (save g path_nodes filename d).2 !! filename
       = Some (file_text (base_url +:+ String.concat "/" url_coords)
                 full_coords).
Proof.
  intros Hall Hs Ht.
  destruct (save_run g path_nodes filename d Hall)
    as (r & uc & fc & Hr & H2u & H2f & E).
  destruct (reduce_waypoints_shape Reducer.max_waypoints_for_url path_nodes r)
    as (Hh & Hl & _ & _);
    [unfold Reducer.max_waypoints_for_url; lia|exact Hr|].
  pose proof (url_nodes_length path_nodes r Hr) as H43.
  rewrite Hs in Hh. rewrite Ht in Hl.
  assert (exists cs, head uc = Some cs /\ coord_of g s = Ok cs)
    as (cs & Hcs & Es).
  { destruct H2u as [|n c r' uc' Hc _]; [discriminate|].
    injection Hh as ->. eauto. }
  assert (exists ct, last uc = Some ct /\ coord_of g t = Ok ct)
    as (ct & Hct & Et).
  { pose proof (Forall2_last _ _ _ H2u) as HL. rewrite Hl in HL.
    inversion HL; subst. eauto. }
  exists cs, ct, uc, fc. repeat split; try assumption.
  - rewrite <- (Forall2_length _ _ _ H2u). lia.
  - rewrite E. cbn [snd files]. apply lookup_insert_eq.
Qed.

End OutputFile.

Lemma triangle_located : Forall (Outer.located Demo.triangle) [1; 2; 3; 1]%Z.
Proof.
  repeat constructor; eexists _, _; split; reflexivity.
Qed.

Lemma stranger_not_located : ~ Forall (Outer.located Demo.triangle) [1; 7]%Z.
Proof.
  intros H. apply Forall_cons in H as [_ H]. apply Forall_cons in H as [H _].
  destruct H as (y & x & Hy & _).
  assert (E : node_attr Demo.triangle 7 "y" = Raise KeyError) by reflexivity.
  congruence.
Qed.

Lemma save_path_rejects_unlocated_nodes_witness :
  Outer.save_path_for_gmaps DemoOuter.show Demo.triangle [1; 7]%Z
    "my_random_walk.txt" DemoOuter.empty_disk
  = (Raise KeyError, DemoOuter.empty_disk)
  /\ ~ Forall (Outer.located Demo.triangle) [1; 7]%Z.
Proof.
  destruct (save_path_rejects_unlocated_nodes DemoOuter.show Demo.triangle
              [1; 7]%Z "my_random_walk.txt" DemoOuter.empty_disk)
    as [H1 H2].
  assert (E : Outer.save_path_for_gmaps DemoOuter.show Demo.triangle [1; 7]%Z
                "my_random_walk.txt" DemoOuter.empty_disk
              = (Raise KeyError, DemoOuter.empty_disk))
    by apply H1, stranger_not_located.
  split; [exact E|]. exact (H2 _ E).
Defined.

Lemma link_runs_from_first_to_last_node_witness :
  exists (cs ct : string) (url_coords full_coords : list string),
    Outer.coord DemoOuter.show Demo.triangle 1 = Ok cs
    /\ Outer.coord DemoOuter.show Demo.triangle 1 = Ok ct
    /\ head url_coords = Some cs /\ last url_coords = Some ct
    /\ (length url_coords <= 43)%nat
    /\ Forall2 (fun n c => Outer.coord DemoOuter.show Demo.triangle n = Ok c)
         [1; 2; 3; 1]%Z full_coords
    /\ Outer.files
         (Outer.save_path_for_gmaps DemoOuter.show Demo.triangle
            [1; 2; 3; 1]%Z "my_random_walk.txt" DemoOuter.empty_disk).2
       !! "my_random_walk.txt"
       = Some (Outer.file_text
                 (Outer.base_url +:+ String.concat "/" url_coords)
                 full_coords).
Proof.
  apply (link_runs_from_first_to_last_node DemoOuter.show Demo.triangle
           [1; 2; 3; 1]%Z "my_random_walk.txt" DemoOuter.empty_disk 1 1).
  - apply triangle_located.
  - reflexivity.
  - reflexivity.
Defined.

(** ** The main block *)

Section MainOutcome.
Import Outer.

Variable load_graphml : string -> result graph.
Variable graph_from_place : string -> result graph.
Variable save_graphml : graph -> string.
Variable show : R -> string.
Variable rng : Type.
Variable random : rng -> R * rng.
Variable nearest_nodes : graph -> R -> R -> Z.
Variable shortest_path : graph -> Z -> Z -> option (list Z).

Abbreviation program :=
  (main load_graphml graph_from_place save_graphml show random nearest_nodes
     shortest_path).

(** X14. One run of the main block makes at most 50 attempts: at most 200
    random draws, 101 nearest-node look-ups (one for the start point) and 150
    shortest-path queries. *)
Theorem main_effort_bounded
    (place_name map_filename : string) (start_lat_lon : R * R)
    (target_km tolerance : R) (output_filename : string)
    (w : world rng) (d : disk) :
  exists evs : list event,
    w_trace (program place_name map_filename start_lat_lon target_km
               tolerance output_filename w d).2.1
    = w_trace w ++ evs
    /\ (count is_attempt evs <= 50)%nat
    /\ (count is_random evs <= 200)%nat
    /\ (count is_nearest_nodes evs <= 101)%nat
    /\ (count is_shortest_path evs <= 150)%nat.
Proof.
  unfold main.
  destruct (setup_map_graph _ _ _ place_name map_filename d) as [[G|e] d1];
    [|exists []; cbn; rewrite app_nil_r; repeat split; lia].
  unfold call_nearest_nodes, bind, emit, ret.
  match goal with |- context [generate_walk_in_circle ?a ?b ?c ?g ?s ?k ?t ?m ?x] =>
    destruct (generate_walk_in_circle a b c g s k t m x) as [r w2] eqn:E end.
  pose proof E as E'.
  apply walk_inv in E as ((e1 & Ht1 & Ha) & _).
  apply walk_events in E' as (e2 & Ht2 & Hd & Hl & Hq & _).
  assert (e1 = e2) as -> by (rewrite Ht1 in Ht2; eapply app_inv_head, Ht2).
  cbn [extend w_trace] in Ht2. rewrite <- app_assoc in Ht2.
  change (Z.to_nat 50) with 50%nat in *.
  assert (Hall : exists evs, w_trace w2 = w_trace w ++ evs
            /\ (count is_attempt evs <= 50)%nat
            /\ (count is_random evs <= 200)%nat
            /\ (count is_nearest_nodes evs <= 101)%nat
            /\ (count is_shortest_path evs <= 150)%nat).
  { eexists. split; [exact Ht2|]. rewrite !count_app. cbn. lia. }
  destruct r as [o|e]; [|exact Hall].
  destruct (truthy o); [|exact Hall].
  destruct (save_path_for_gmaps show G (default [] o) output_filename d1).
  exact Hall.
Qed.

(** X15. When the main block ends without an error there are two cases.
    Either the search ended on its success message, and the output file has
    been written after the map set-up: the file of that name holds the text
    of [save_path_for_gmaps], and this one write and the closing message are
    all that was logged after the set-up. Or the search ended on its give-up
    message, and nothing has been written or printed by the outer program
    after the map set-up. The oracle is taken to answer with a path from its
    source to its target. *)
Theorem output_written_exactly_on_success
    (oracle_ends : forall g s t p, shortest_path g s t = Some p ->
                   head p = Some s /\ last p = Some t)
    (place_name map_filename : string) (start_lat_lon : R * R)
    (target_km tolerance : R) (output_filename : string)
    (w w' : world rng) (d d' : disk) :
  program place_name map_filename start_lat_lon target_km tolerance
    output_filename w d = (Ok tt, (w', d')) ->
  let d1 := (setup_map_graph load_graphml graph_from_place save_graphml
               place_name map_filename d).2 in
  ((exists len : R, last (w_trace w') = Some (EvPrintSuccess len))
   /\ (exists url_coords full_coords : list string,
         files d' !! output_filename
         = Some (file_text (base_url +:+ String.concat "/" url_coords)
                   full_coords))
   /\ io_log d'
      = io_log d1 ++
        [IoWrite output_filename;
         IoPrint ("Path saved! Check the file '" +:+ output_filename
                  +:+ "' for your Google Maps link.")])
  \/ (last (w_trace w') = Some EvPrintGiveUp /\ d' = d1).
Proof.
  unfold main.
  destruct (setup_map_graph _ _ _ place_name map_filename d)
    as [[G|e] d1] eqn:Es; [|discriminate].
  unfold call_nearest_nodes, bind, emit, ret.
  match goal with |- context [generate_walk_in_circle ?a ?b ?c ?g ?s ?k ?t ?m ?x] =>
    destruct (generate_walk_in_circle a b c g s k t m x) as [[o|e] w2] eqn:E end;
    [|discriminate].
  pose proof E as E'.
  apply walk_events in E' as (evs & Ht & _ & _ & _ & Hp & Hn).
  cbn [snd]. destruct o as [p|].
  - pose proof (returned_path_nonempty _ _ _ _ oracle_ends _ _ _ _ _ _ _ _ E)
      as Hne.
    destruct p as [|n p]; [contradiction|]. cbn [truthy].
    change (default [] (Some (n :: p))) with (n :: p).
    destruct (coords_cases show G (n :: p)) as [[Hall _]|[Hno _]].
    + destruct (save_run show G (n :: p) output_filename d1 Hall)
        as (r & uc & fc & _ & _ & _ & ->).
      intros [= <- <-]. left. split; [|split].
      * destruct (Hp (n :: p) eq_refl) as (len & _ & Hl).
        exists len. rewrite Ht, last_app, Hl. reflexivity.
      * exists uc, fc. cbn [files]. apply lookup_insert_eq.
      * reflexivity.
    + rewrite save_fail by exact Hno. discriminate.
  - cbn [truthy]. intros [= <- <-]. right. split; [|reflexivity].
    rewrite Ht, last_app, (Hn eq_refl). reflexivity.
Qed.

End MainOutcome.

(** The main block from the point (-1, 0) on the small network: the map is
    downloaded, the first attempt finds the loop 1, 2, 3, 1 and the output
    file is written. *)
Lemma demo_by_latitude_nodes (g : graph) :
  DemoOuter.by_latitude g (sample_point_in_disk 0 0 (4 / 4) 0 0).2
                          (sample_point_in_disk 0 0 (4 / 4) 0 0).1 = 2%Z
  /\ DemoOuter.by_latitude g (sample_point_in_disk 0 0 (4 / 4) (1 / 4) 0).2
                             (sample_point_in_disk 0 0 (4 / 4) (1 / 4) 0).1
     = 3%Z.
Proof.
  split.
  - rewrite demo_sample_b. unfold DemoOuter.by_latitude. cbn [fst snd].
    destruct (Rlt_dec 0 0); [lra|]. destruct (Rlt_dec 0 0); [lra|reflexivity].
  - unfold DemoOuter.by_latitude. pose proof demo_sample_c.
    destruct (Rlt_dec _ 0); [lra|]. destruct (Rlt_dec 0 _); [reflexivity|lra].
Qed.

Lemma demo_attempt_by_latitude (tr : list event) :
  exists evs : list event,
    attempt Demo.tick DemoOuter.by_latitude Demo.ring_paths Demo.triangle
      1 0 0 (4 / 4) (4 * (1 - 15 / 100) * 1000) (4 * (1 + 15 / 100) * 1000)
      50 0 (World 0%nat tr)
    = (Ok (Some [1; 2; 3; 1]%Z), World 4%nat (tr ++ evs))
    /\ last evs = Some (EvPrintSuccess (0 + 1000 + 2000 + 1000)).
Proof.
  pose proof (demo_draw_b (4 / 4)
                (tr ++ [EvPrintAttempt (Z.of_nat 0 + 1) 50])) as Hb.
  pose proof (demo_draw_c (4 / 4)
                ((tr ++ [EvPrintAttempt (Z.of_nat 0 + 1) 50])
                 ++ [EvRandom; EvRandom])) as Hc.
  destruct (demo_by_latitude_nodes Demo.triangle) as [Nb Nc].
  rewrite (attempt_sampled nat Demo.tick DemoOuter.by_latitude
             Demo.ring_paths Demo.triangle 1 0 0 (4 / 4) _ _ 50 0
             (World 0%nat tr) _ _ _ _ Hb Hc).
  cbv zeta. rewrite Nb, Nc.
  change (degenerate 1 2 3) with false. cbv iota.
  rewrite try_block_run.
  change (Demo.ring_paths Demo.triangle 1 2) with (Some [1; 2]%Z).
  change (Demo.ring_paths Demo.triangle 2 3) with (Some [2; 3]%Z).
  change (Demo.ring_paths Demo.triangle 3 1) with (Some [3; 1]%Z).
  cbv iota zeta.
  change (but_last [1; 2]%Z ++ but_last [2; 3]%Z ++ [3; 1]%Z)
    with [1; 2; 3; 1]%Z.
  rewrite demo_path_length.
  destruct (Rle_dec _ _) as [_|H]; [|exfalso; apply H; lra].
  destruct (Rle_dec _ _) as [_|H]; [|exfalso; apply H; lra].
  unfold extend. cbn [w_rng w_trace]. rewrite <- !app_assoc.
  eexists. split; [reflexivity|]. rewrite !last_app. reflexivity.
Qed.

Lemma demo_main_succeeds :
  let out := Outer.main DemoOuter.load DemoOuter.download DemoOuter.save
               DemoOuter.show Demo.tick DemoOuter.by_latitude Demo.ring_paths
               "Kolkata" "map.graphml" (-1, 0) 4 (15 / 100) "walk.txt"
               Demo.w0 DemoOuter.empty_disk in
  out.1 = Ok tt
  /\ last (w_trace out.2.1) = Some (EvPrintSuccess (0 + 1000 + 2000 + 1000)).
Proof.
  cbv zeta. unfold Outer.main.
  rewrite setup_miss by reflexivity. cbv zeta.
  change (DemoOuter.download "Kolkata") with (Ok Demo.triangle).
  unfold call_nearest_nodes, bind, emit, ret.
  assert (Hstart : DemoOuter.by_latitude Demo.triangle (-1, 0).2 (-1, 0).1
                   = 1%Z).
  { unfold DemoOuter.by_latitude. cbn [fst snd].
    destruct (Rlt_dec (-1) 0); [reflexivity|lra]. }
  rewrite Hstart.
  destruct (demo_attempt_by_latitude
              ([] ++ [EvNearestNodes (-1, 0).2 (-1, 0).1]))
    as (evs & Ha & Hlast).
  unfold generate_walk_in_circle, bind, lift.
  rewrite !demo_coordinates by auto.
  change (Z.to_nat 50) with (S 49).
  rewrite (attempts_stop _ _ _ _ _ _ _ _ _ _ _ _ _ _ _ _ _ Ha).
  cbn [Outer.truthy].
  change (default [] (Some [1; 2; 3; 1]%Z)) with [1; 2; 3; 1]%Z.
  match goal with |- context [Outer.save_path_for_gmaps ?sh ?g ?pth ?f ?d1] =>
    destruct (save_run sh g pth f d1 triangle_located)
      as (r & uc & fc & _ & _ & _ & ->) end.
  cbn [fst snd w_trace]. split; [reflexivity|].
  rewrite last_app, Hlast. reflexivity.
Qed.

Lemma output_written_exactly_on_success_witness :
  let out := Outer.main DemoOuter.load DemoOuter.download DemoOuter.save
               DemoOuter.show Demo.tick DemoOuter.by_latitude Demo.ring_paths
               "Kolkata" "map.graphml" (-1, 0) 4 (15 / 100) "walk.txt"
               Demo.w0 DemoOuter.empty_disk in
  let d1 := (Outer.setup_map_graph DemoOuter.load DemoOuter.download
               DemoOuter.save "Kolkata" "map.graphml"
               DemoOuter.empty_disk).2 in
  (exists len : R, last (w_trace out.2.1) = Some (EvPrintSuccess len))
  /\ (exists url_coords full_coords : list string,
        Outer.files out.2.2 !! "walk.txt"
        = Some (Outer.file_text
                  (Outer.base_url +:+ String.concat "/" url_coords)
                  full_coords))
  /\ Outer.io_log out.2.2
     = Outer.io_log d1 ++
       [Outer.IoWrite "walk.txt";
        Outer.IoPrint ("Path saved! Check the file '" +:+ "walk.txt"
                       +:+ "' for your Google Maps link.")].
Proof.
  intros out d1. destruct demo_main_succeeds as [Hok Hlast]. fold out in Hok, Hlast.
  destruct (output_written_exactly_on_success DemoOuter.load
              DemoOuter.download DemoOuter.save DemoOuter.show nat Demo.tick
              DemoOuter.by_latitude Demo.ring_paths ring_paths_ends
              "Kolkata" "map.graphml" (-1, 0) 4 (15 / 100) "walk.txt"
              Demo.w0 out.2.1 DemoOuter.empty_disk out.2.2) as [H|[Hg _]].
  - rewrite <- Hok. fold out. destruct out as [r [w' d']]. reflexivity.
  - exact H.
  - rewrite Hlast in Hg. discriminate.
Defined.
